(** * PubNub Python client: request dispatch and message encryption

    A shallow embedding of [pubnub/pubnub.py] (synchronous and asynchronous
    request dispatch, error classification, the call handle) and of
    [pubnub/crypto.py] (padding and the encrypt/decrypt pair), with the
    properties of the dispatch engine stated over it. *)

From stdpp Require Import gmap strings list.
From Stdlib Require Import ZArith NArith Lia.

Set Default Proof Using "Type".
Local Open Scope Z_scope.

(** ** Python outcomes: a call returns a value or raises *)

Inductive outcome (E A : Type) : Type :=
| Returns (a : A)
| Raises (e : E).
Arguments Returns {E A} a.
Arguments Raises {E A} e.

(** ** The [requests] library, as far as [pubnub.py] depends on it *)

Module Requests.

(** Classes of [requests.exceptions]. *)
Inductive exc_class : Set :=
| RequestException
| HTTPError
| ConnectionError
| ProxyError
| SSLError
| Timeout
| ConnectTimeout
| ReadTimeout
| URLRequired
| TooManyRedirects
| MissingSchema
| InvalidSchema
| InvalidURL
| ChunkedEncodingError
| ContentDecodingError
| StreamConsumedError
| RetryError.

#[global] Instance exc_class_eq_dec : EqDecision exc_class.
Proof. solve_decision. Defined.

(** Direct base classes inside [requests.exceptions].  [ConnectTimeout]
    is declared [class ConnectTimeout(ConnectionError, Timeout)]: a
    timeout while connecting is both a connection error and a timeout. *)
Definition bases (c : exc_class) : list exc_class :=
  match c with
  | RequestException => []
  | ProxyError | SSLError => [ConnectionError]
  | ConnectTimeout => [ConnectionError; Timeout]
  | ReadTimeout => [Timeout]
  | _ => [RequestException]
  end.

Fixpoint subclass_upto (depth : nat) (c d : exc_class) : bool :=
  if decide (c = d) then true
  else match depth with
       | O => false
       | S depth' => existsb (fun b => subclass_upto depth' b d) (bases c)
       end.

(** [issubclass(c, d)]; the hierarchy is three classes deep. *)
Definition issubclass : exc_class -> exc_class -> bool := subclass_upto 3.

(** [requests.codes.ok] *)
Definition codes_ok : Z := 200.

End Requests.

(** What the injected session can raise from [session.request]: an instance
    of a [requests.exceptions] class, or of any other [Exception] class,
    named.  [exc_str] is [str(e)]. *)
Inductive transport_exception : Type :=
| RequestsExc (c : Requests.exc_class) (exc_str : string)
| OtherExc (cls : string) (exc_str : string).

Definition isinstance (e : transport_exception) (c : Requests.exc_class) : bool :=
  match e with
  | RequestsExc c' _ => Requests.issubclass c' c
  | OtherExc _ _ => false
  end.

Definition str (e : transport_exception) : string :=
  match e with
  | RequestsExc _ s => s
  | OtherExc _ s => s
  end.

(** ** Error taxonomy *)

(** Modelled from the spec: the error constants that [pubnub.py] imports
    from [errors.py], which is not among the sources; the spec's taxonomy
    (its section 4.1) lists the same eight kinds.  The code compares them
    by identity. *)
Inductive pn_error : Set :=
| PNERR_DEFERRED_NOT_IMPLEMENTED
| PNERR_SERVER_ERROR
| PNERR_CLIENT_ERROR
| PNERR_UNKNOWN_ERROR
| PNERR_TOO_MANY_REDIRECTS_ERROR
| PNERR_CLIENT_TIMEOUT
| PNERR_HTTP_ERROR
| PNERR_CONNECTION_ERROR.

#[global] Instance pn_error_eq_dec : EqDecision pn_error.
Proof. solve_decision. Defined.

(** Modelled from the spec: [exceptions.PubNubException], which is not among
    the sources: "a tagged value with an error kind, a human-readable
    message, and an optional numeric HTTP status code", built with the
    keyword arguments [pn_error], [errormsg] and [status_code]. *)
Record PubNubException : Type := mkPubNubException {
  _pn_error : pn_error;
  _errormsg : string;
  _status_code : option Z;
}.

(** Exceptions that travel through the dispatch path.  [type(e) is
    PubNubException] holds for [Exc_PubNub] only; an instance of a proper
    subclass is still caught by [except PubNubException]. *)
Inductive exception : Type :=
| Exc_PubNub (e : PubNubException)
| Exc_PubNubSubclass (cls : string) (e : PubNubException)
| Exc_Other (cls : string) (msg : string).

Definition type_is_PubNubException (e : exception) : bool :=
  match e with Exc_PubNub _ => true | _ => false end.

Definition isinstance_PubNubException (e : exception) : bool :=
  match e with Exc_PubNub _ | Exc_PubNubSubclass _ _ => true | Exc_Other _ _ => false end.

(** Modelled from the spec: [enums.PNStatusCategory], which is not among the
    sources; the spec's data model lists these categories. *)
Inductive PNStatusCategory : Set :=
| PNUnknownCategory
| PNAcknowledgmentCategory
| PNAccessDeniedCategory
| PNTimeoutCategory
| PNUnexpectedDisconnectCategory
| PNBadRequestCategory.

#[global] Instance PNStatusCategory_eq_dec : EqDecision PNStatusCategory.
Proof. solve_decision. Defined.

(** ** Requests and responses *)

Local Unset Elimination Schemes.
(** A decoded JSON document, as [res.json()] and [json.loads] return it. *)
Inductive json : Type :=
| JNull
| JBool (b : bool)
| JInt (n : Z)
| JFloat (literal : string)
| JString (s : string)
| JArray (items : list json)
| JObject (members : list (string * json)).
Local Set Elimination Schemes.

(** Modelled from the spec: [structures.RequestOptions], which is not among
    the sources: "HTTP method, path, query parameters, body payload
    (present only for body-bearing methods)".  [is_post] is the result of
    the method [is_post()]. *)
Record RequestOptions : Type := mkRequestOptions {
  path : string;
  method_string : string;
  query_string : string;
  params : string;
  data : string;
  is_post : bool;
}.

(** The keyword arguments handed to [session.request]. *)
Record request_args : Type := mkArgs {
  arg_method : string;
  arg_headers : list (string * string);
  arg_url : string;
  arg_params : string;
  arg_timeout : Z * Z;
  arg_data : option string;
}.

(** The request [requests] prepared and sent, [Response.request]. *)
Record PreparedRequest : Type := mkPreparedRequest {
  request_method : string;
  request_url : string;
}.

(** What [res.json()] raises on a body that does not decode: an exception
    of the JSON decoder in use, by its class and its message.  Which class
    that is depends on the version of [requests] ([ValueError],
    [json.JSONDecodeError], [simplejson]'s or [requests]' own); none of them
    is a [PubNubException]. *)
Record json_failure : Type := mkJsonFailure {
  failure_class : string;
  failure_message : string;
}.

(** A [requests.Response], by the attributes the code reads.  [json_body]
    is the outcome of [res.json()]: the decoded body, or the exception the
    decoder raises.  [url] is the URL the response came from: the URL of
    the last request [requests] sent for it, which is not the one it was
    asked for when it followed a redirect. *)
Record Response : Type := mkResponse {
  status_code : Z;
  text : option string;
  url : string;
  json_body : outcome json_failure json;
  request : PreparedRequest;
}.

(** [res.json()] *)
Definition res_json (res : Response) : outcome exception json :=
  match json_body res with
  | Returns j => Returns j
  | Raises f => Raises (Exc_Other (failure_class f) (failure_message f))
  end.

(** The injected session: [session.request], applied to the keyword
    arguments, returns a response or raises. *)
Definition Session : Type := request_args -> outcome transport_exception Response.

(** ** [PubNub.pn_request] *)

(** The calls to [logger.debug] leave the outcome as it is and are left
    out. *)

(** The dictionary [args] that [pn_request] fills in; ['data'] is present for
    a POST only. *)
Definition request_kwargs (scheme_and_host : string) (headers : list (string * string))
    (options : RequestOptions) (connect_timeout read_timeout : Z) : request_args :=
  let url := scheme_and_host +:+ path options in
  {| arg_method := method_string options;
     arg_headers := headers;
     arg_url := url;
     arg_params := query_string options;
     arg_timeout := (connect_timeout, read_timeout);
     arg_data := if is_post options then Some (data options) else None |}.

Definition pn_request (session : Session) (scheme_and_host : string)
    (headers : list (string * string)) (options : RequestOptions)
    (connect_timeout read_timeout : Z) : outcome exception Response :=
  let args := request_kwargs scheme_and_host headers options connect_timeout read_timeout in
  match session args with
  | Returns res => Returns res
  | Raises e =>
      if isinstance e Requests.ConnectionError then
        Raises (Exc_PubNub (mkPubNubException PNERR_CONNECTION_ERROR (str e) None))
      else if isinstance e Requests.HTTPError then
        Raises (Exc_PubNub (mkPubNubException PNERR_HTTP_ERROR (str e) None))
      else if isinstance e Requests.Timeout then
        Raises (Exc_PubNub (mkPubNubException PNERR_CLIENT_TIMEOUT (str e) None))
      else if isinstance e Requests.TooManyRedirects then
        Raises (Exc_PubNub (mkPubNubException PNERR_TOO_MANY_REDIRECTS_ERROR (str e) None))
      else
        Raises (Exc_PubNub (mkPubNubException PNERR_UNKNOWN_ERROR (str e) None))
  end.

(** Modelled from the spec: [pnconfiguration.PNConfiguration], which is not
    among the sources, by the three values the code reads from it: "a
    configured base URL" and the connect and read timeouts. *)
Record PNConfiguration : Type := mkPNConfiguration {
  scheme_and_host : string;
  connect_timeout : Z;
  non_subscribe_request_timeout : Z;
}.

(** The client object: [self.session], [self.config] and [self.headers]. *)
Record PubNub : Type := mkPubNub {
  session : Session;
  config : PNConfiguration;
  headers : list (string * string);
}.

(** ** [PubNub.request_sync] *)

Definition request_sync (self : PubNub) (options : RequestOptions)
    : outcome exception Response :=
  match pn_request (session self) (scheme_and_host (config self)) (headers self) options
          (connect_timeout (config self)) (non_subscribe_request_timeout (config self)) with
  | Raises e => Raises e
  | Returns res =>
      if negb (status_code res =? Requests.codes_ok) then
        let text := match text res with None => "N/A"%string | Some t => t end in
        let err := if 500 <=? status_code res then PNERR_SERVER_ERROR else PNERR_CLIENT_ERROR in
        Raises (Exc_PubNub (mkPubNubException err text (Some (status_code res))))
      else
        Returns res
  end.

(** ** The asynchronous path *)

(** Modelled from the spec: [structures.ResponseInfo], which is not among
    the sources: "numeric status code, whether the transport used TLS,
    resolved origin host, extracted uuid and auth_key query parameters, and
    a reference to the underlying request object". *)
Record ResponseInfo : Type := mkResponseInfo {
  ri_status_code : Z;
  tls_enabled : bool;
  origin : option string;
  uuid : option string;
  auth_key : option string;
  client_request : PreparedRequest;
}.

(** What [utils.urlparse] returns, by the attributes the code reads. *)
Record ParseResult : Type := mkParseResult {
  scheme : string;
  hostname : option string;
  query : string;
}.

(** One invocation of the caller's callback:
    [callback(status_category, body, response_info, error)]. *)
Record callback_args : Type := mkCallbackArgs {
  cb_category : PNStatusCategory;
  cb_body : option json;
  cb_response_info : option ResponseInfo;
  cb_error : option PubNubException;
}.

Inductive Thread : Set := EndpointThread (name : string).
Inductive Event : Set := CancellationEvent.

(** [class Call]: the handle of one asynchronous call. *)
Record Call : Type := mkCall {
  thread : option Thread;
  cancellation_event : option Event;
  is_executed : bool;
  is_canceled : bool;
}.

(** [Call.__init__] *)
Definition Call_init : Call :=
  {| thread := None; cancellation_event := None; is_executed := false; is_canceled := false |}.

(** The objects one asynchronous call touches.  The [threading.Event] given
    to [request_async] is a single object, referenced both by the handle and
    by the background unit's client; [event_flag] is its flag.  [delivered]
    lists the invocations of the callback, oldest first. *)
Record world : Type := mkWorld {
  call : Call;
  event_flag : bool;
  delivered : list callback_args;
}.


(** The caller's callback.  It is caller code: invoked with four arguments,
    it returns or it raises, and which of the two may depend on the
    arguments and on the invocations it has seen on this call before (the
    first argument, oldest first). *)
Definition Callable : Type :=
  list callback_args -> callback_args -> outcome exception unit.

(** *** Code of the background unit

    The code that runs on the background unit, as the sequence of its
    actions on the objects of the call: reading the cancellation event,
    invoking the callback, setting the executed flag.  Each action is one
    step of the unit, and the caller can act between any two of them. *)
Inductive prog (A : Type) : Type :=
| Done (o : outcome exception A)
| IsSet (k : bool -> prog A)
| Invoke (f : Callable) (args : callback_args) (k : outcome exception unit -> prog A)
| SetExecuted (k : prog A).
Arguments Done {A} o.
Arguments IsSet {A} k.
Arguments Invoke {A} f args k.
Arguments SetExecuted {A} k.

Definition ret {A} (a : A) : prog A := Done (Returns a).

Definition raise {A} (e : exception) : prog A := Done (Raises e).

Definition lift {A} (o : outcome exception A) : prog A := Done o.

Fixpoint bind {A B} (m : prog A) (k : A -> prog B) : prog B :=
  match m with
  | Done (Returns a) => k a
  | Done (Raises e) => Done (Raises e)
  | IsSet c => IsSet (fun b => bind (c b) k)
  | Invoke f args c => Invoke f args (fun o => bind (c o) k)
  | SetExecuted c => SetExecuted (bind c k)
  end.

Notation "x <~ m ;; k" := (bind m (fun x => k))
  (at level 100, m at next level, right associativity).
Notation "m ;;; k" := (bind m (fun _ => k))
  (at level 100, right associativity).

(** [try: body except PubNubException as e: handler(e)]; what the handler
    raises is not caught again. *)
Fixpoint try_except_PubNubException {A} (body : prog A) (handler : exception -> prog A)
    : prog A :=
  match body with
  | Done (Returns a) => Done (Returns a)
  | Done (Raises e) => if isinstance_PubNubException e then handler e else Done (Raises e)
  | IsSet c => IsSet (fun b => try_except_PubNubException (c b) handler)
  | Invoke f args c => Invoke f args (fun o => try_except_PubNubException (c o) handler)
  | SetExecuted c => SetExecuted (try_except_PubNubException c handler)
  end.

(** The call [f(status_category, body, response_info, error)] of a callable
    [f]: what [f] raises is raised by the call. *)
Definition invoke (f : Callable) (args : callback_args) : prog unit :=
  Invoke f args (fun o => Done o).

(** [Call.executed_cb] *)
Definition executed_cb : prog unit := SetExecuted (ret tt).

(** [self.cancellation_event.isSet()], on the client's reference. *)
Definition isSet : prog bool := IsSet (fun b => ret b).

(** *** What the actions do to the objects *)

(** Code run from start to end without interruption: the outcome and the
    objects it leaves. *)
Definition M (A : Type) : Type := world -> outcome exception A * world.

(** The callback has been invoked with [args]. *)
Definition with_invocation (args : callback_args) (w : world) : world :=
  {| call := call w; event_flag := event_flag w; delivered := delivered w ++ [args] |}.

(** [self.is_executed = True] *)
Definition with_executed (w : world) : world :=
  {| call := {| thread := thread (call w);
                cancellation_event := cancellation_event (call w);
                is_executed := true;
                is_canceled := is_canceled (call w) |};
     event_flag := event_flag w; delivered := delivered w |}.

(** The first action of [p], and what remains to be done after it. *)
Definition step_prog {A} (p : prog A) (w : world) : prog A * world :=
  match p with
  | Done o => (Done o, w)
  | IsSet k => (k (event_flag w), w)
  | Invoke f args k => (k (f (delivered w) args), with_invocation args w)
  | SetExecuted k => (k, with_executed w)
  end.

(** All the actions of [p], one after the other. *)
Fixpoint finish {A} (p : prog A) : M A :=
  fun w =>
    match p with
    | Done o => (o, w)
    | IsSet k => finish (k (event_flag w)) w
    | Invoke f args k => finish (k (f (delivered w) args)) (with_invocation args w)
    | SetExecuted k => finish k (with_executed w)
    end.

(** [Call.cancel], which the caller runs. *)
Definition cancel : M unit :=
  fun w => match cancellation_event (call w) with
           | None => (Raises (Exc_Other "AttributeError"
                                "'NoneType' object has no attribute 'set'"), w)
           | Some CancellationEvent =>
               (Returns tt,
                {| call := {| thread := thread (call w);
                              cancellation_event := cancellation_event (call w);
                              is_executed := is_executed (call w);
                              is_canceled := true |};
                   event_flag := true; delivered := delivered w |})
           end.

Section Dispatch.

(** [utils.urlparse] and [utils.parse_qs]; [utils.py] is not among the
    sources, so both are parameters of the development. *)
Context (urlparse : string -> ParseResult).
Context (parse_qs : string -> gmap string (list string)).

(** The argument [callback] of [request_async], which both closures
    capture. *)
Context (callback : Callable).

(** The closure [success_callback] of [request_async].  The arguments of
    the call to [callback] are evaluated before the call, [res.json()]
    among them. *)
Definition success_callback (res : Response) : prog unit :=
  let status_category := PNUnknownCategory in
  let url := urlparse (url res) in
  let query := parse_qs (query url) in
  let uuid :=
    match query !! "uuid"%string with
    | Some vs => if (0 <? length vs)%nat then vs !! 0%nat else None
    | None => None
    end in
  let auth_key :=
    match query !! "auth_key"%string with
    | Some vs => if (0 <? length vs)%nat then vs !! 0%nat else None
    | None => None
    end in
  let response_info :=
    Some (mkResponseInfo (status_code res)
            (bool_decide ("https"%string = scheme url))
            (hostname url) uuid auth_key (request res)) in
  if negb (status_code res =? Requests.codes_ok) then
    let status_category :=
      if status_code res =? 403 then PNAccessDeniedCategory else status_category in
    let status_category :=
      if status_code res =? 400 then PNBadRequestCategory else status_category in
    let text := match text res with None => "N/A"%string | Some t => t end in
    let err := if 500 <=? status_code res then PNERR_SERVER_ERROR else PNERR_CLIENT_ERROR in
    body <~ lift (res_json res) ;;
    invoke callback
      (mkCallbackArgs status_category (Some body) response_info
         (Some (mkPubNubException err text (Some (status_code res))))) ;;;
    executed_cb
  else
    body <~ lift (res_json res) ;;
    invoke callback (mkCallbackArgs status_category (Some body) response_info None) ;;;
    executed_cb.

(** The closure [error_callback] of [request_async]. *)
Definition error_callback (e : exception) : prog unit :=
  let status_category := PNBadRequestCategory in
  match e with
  | Exc_PubNub pe =>
      let status_category :=
        if decide (_pn_error pe = PNERR_CONNECTION_ERROR) then PNUnexpectedDisconnectCategory
        else if decide (_pn_error pe = PNERR_CLIENT_TIMEOUT) then PNTimeoutCategory
        else status_category in
      invoke callback (mkCallbackArgs status_category None None (Some pe)) ;;;
      executed_cb
  | _ => raise e
  end.

End Dispatch.

(** [class AsyncHTTPClient] *)
Record AsyncHTTPClient : Type := mkAsyncHTTPClient {
  client_options : RequestOptions;
  success : Response -> prog unit;
  error : exception -> prog unit;
  pubnub : PubNub;
  client_cancellation_event : Event;
}.

(** The body of [AsyncHTTPClient.run] from the point where [pn_request]
    has come back with outcome [r]. *)
Definition run_from (self : AsyncHTTPClient) (r : outcome exception Response) : prog unit :=
  try_except_PubNubException
    (res <~ lift r ;;
     cancelled <~ isSet ;;
     if cancelled then ret tt else success self res)
    (error self).

Definition client_request_outcome (self : AsyncHTTPClient) : outcome exception Response :=
  pn_request (session (pubnub self)) (scheme_and_host (config (pubnub self)))
    (headers (pubnub self)) (client_options self)
    (connect_timeout (config (pubnub self)))
    (non_subscribe_request_timeout (config (pubnub self))).

(** [AsyncHTTPClient.run] *)
Definition run (self : AsyncHTTPClient) : prog unit :=
  run_from self (client_request_outcome self).

(** *** The background unit and the caller, interleaved *)

(** Where the background unit stands: inside the network round trip; back
    from it, with [rest] still to do; or over, normally or with an
    exception that left [run]. *)
Inductive unit_state : Type :=
| Requesting
| Running (rest : prog unit)
| Terminated (o : outcome exception unit).

Record system : Type := mkSystem {
  objects : world;
  unit_at : unit_state;
}.

(** The unit with [p] still to do. *)
Definition position (p : prog unit) : unit_state :=
  match p with
  | Done o => Terminated o
  | _ => Running p
  end.

(** One move of the background unit: the round trip comes back, or the
    code of [run] does its next action. *)
Definition unit_step (self : AsyncHTTPClient) (s : system) : system :=
  match unit_at s with
  | Requesting =>
      {| objects := objects s;
         unit_at := position (run_from self (client_request_outcome self)) |}
  | Running p =>
      let (p', w') := step_prog p (objects s) in
      {| objects := w'; unit_at := position p' |}
  | Terminated _ => s
  end.

(** The caller invokes [cancel()] on the handle. *)
Definition caller_cancel (s : system) : system :=
  {| objects := snd (cancel (objects s)); unit_at := unit_at s |}.

Inductive action : Set := DoCancel | UnitStep.

Definition perform (self : AsyncHTTPClient) (s : system) (a : action) : system :=
  match a with
  | DoCancel => caller_cancel s
  | UnitStep => unit_step self s
  end.

(** A schedule: the order in which caller and background unit move. *)
Definition exec (self : AsyncHTTPClient) (sched : list action) (s : system) : system :=
  foldl (perform self) s sched.

(** [Call.join]: wait for the thread, when there is one, to be over; the
    unit does all that remains for it to do. *)
Definition join (self : AsyncHTTPClient) (s : system) : system :=
  match thread (call (objects s)) with
  | Some _ =>
      match unit_at s with
      | Requesting =>
          let (o, w') := finish (run_from self (client_request_outcome self)) (objects s) in
          {| objects := w'; unit_at := Terminated o |}
      | Running p =>
          let (o, w') := finish p (objects s) in
          {| objects := w'; unit_at := Terminated o |}
      | Terminated _ => s
      end
  | None => s
  end.

Section RequestAsync.

Context (urlparse : string -> ParseResult).
Context (parse_qs : string -> gmap string (list string)).

(** [PubNub.request_async]: the client it builds and the system right
    after the thread was started; [event_is_set] is the state in which the
    caller hands over the cancellation event. *)
Definition request_async (self : PubNub) (endpoint_name : string)
    (options : RequestOptions) (callback : Callable) (event_is_set : bool)
    : AsyncHTTPClient * system :=
  let call := Call_init in
  let client :=
    mkAsyncHTTPClient options (success_callback urlparse parse_qs callback)
      (error_callback callback) self CancellationEvent in
  let thread := EndpointThread (endpoint_name +:+ "EndpointThread-0") in
  let call := {| thread := Some thread; cancellation_event := Some CancellationEvent;
                 is_executed := is_executed call; is_canceled := is_canceled call |} in
  (client, {| objects := {| call := call; event_flag := event_is_set; delivered := [] |};
              unit_at := Requesting |}).

End RequestAsync.
Arguments mkAsyncHTTPClient : clear implicits.

(** ** Notions used to state the properties of the dispatch engine *)

(** One delivery: the callback is invoked with [args], and [executed_cb]
    follows when it returns. *)
Definition delivery (f : Callable) (args : callback_args) : M unit :=
  finish (invoke f args ;;; executed_cb).

(** The world after one invocation of the callback that returned, followed
    by [executed_cb]. *)
Definition invoked_then_executed (args : callback_args) (w : world) : world :=
  with_executed (with_invocation args w).

(** What [error_callback] passes to the callback for the exception [pe]. *)
Definition error_args (pe : PubNubException) : callback_args :=
  mkCallbackArgs
    (if decide (_pn_error pe = PNERR_CONNECTION_ERROR) then PNUnexpectedDisconnectCategory
     else if decide (_pn_error pe = PNERR_CLIENT_TIMEOUT) then PNTimeoutCategory
     else PNBadRequestCategory)
    None None (Some pe).

(** Code that is past the test of the cancellation event: it invokes
    callbacks, and setting the executed flag is the last thing it does. *)
Inductive past_test : prog unit -> Prop :=
| pt_done o : past_test (Done o)
| pt_invoke f args k : (forall o, past_test (k o)) -> past_test (Invoke f args k)
| pt_executed a : past_test (SetExecuted (Done (Returns a))).

(** What is left for a unit to do. *)
Definition rest_of (self : AsyncHTTPClient) (u : unit_state) : prog unit :=
  match u with
  | Requesting => run_from self (client_request_outcome self)
  | Running p => p
  | Terminated o => Done o
  end.

(** What a run shows to the caller at its end: how it ended, the
    invocations of the callback and the executed flag. *)
Definition view (x : outcome exception unit * world)
    : outcome exception unit * list callback_args * bool :=
  (fst x, delivered (snd x), is_executed (call (snd x))).

(** Whether the caller calls [cancel()] somewhere in a schedule. *)
Definition cancels (sched : list action) : bool :=
  existsb (fun a => match a with DoCancel => true | UnitStep => false end) sched.

Section DispatchNotions.

Context (urlparse : string -> ParseResult).
Context (parse_qs : string -> gmap string (list string)).

(** The client [request_async] builds. *)
Definition client_of (self : PubNub) (options : RequestOptions) (callback : Callable)
    : AsyncHTTPClient :=
  mkAsyncHTTPClient options (success_callback urlparse parse_qs callback)
    (error_callback callback) self CancellationEvent.

(** What [success_callback] passes to the callback for response [res] with
    decoded body [body]. *)
Definition describes_response (res : Response) (body : json) (args : callback_args) : Prop :=
  cb_body args = Some body
  /\ cb_category args =
       (if status_code res =? 400 then PNBadRequestCategory
        else if status_code res =? 403 then PNAccessDeniedCategory
        else PNUnknownCategory)
  /\ (exists ri, cb_response_info args = Some ri
        /\ ri_status_code ri = status_code res
        /\ tls_enabled ri = bool_decide ("https"%string = scheme (urlparse (url res)))
        /\ origin ri = hostname (urlparse (url res))
        /\ uuid ri = (parse_qs (query (urlparse (url res))) !! "uuid"%string) ≫= head
        /\ auth_key ri = (parse_qs (query (urlparse (url res))) !! "auth_key"%string) ≫= head
        /\ client_request ri = request res)
  /\ cb_error args =
       (if status_code res =? 200 then None
        else Some (mkPubNubException
                     (if 500 <=? status_code res then PNERR_SERVER_ERROR
                      else PNERR_CLIENT_ERROR)
                     (default "N/A"%string (text res))
                     (Some (status_code res)))).

Context (self : PubNub) (options : RequestOptions) (callback : Callable).

(** Nothing has been delivered and the handle is as [request_async] left it. *)
Definition pristine (w : world) : Prop :=
  delivered w = []
  /\ is_executed (call w) = false
  /\ thread (call w) <> None
  /\ cancellation_event (call w) = Some CancellationEvent.

(** The unit has not yet tested the cancellation event: it is inside the
    round trip, or back from it with all of [run] still to do. *)
Definition before_test (u : unit_state) : Prop :=
  u = Requesting
  \/ u = Running (run_from (client_of self options callback)
                    (client_request_outcome (client_of self options callback))).

(** The states a call goes through.  Until the unit has tested the event
    nothing has happened to the objects but what [cancel] does.  From then
    on the unit is bound to end as [run], started in some such world [w0],
    ends; the executed flag is not set while something remains to do. *)
Inductive call_state : system -> Prop :=
| cs_requesting w :
    pristine w -> call_state {| objects := w; unit_at := Requesting |}
| cs_before_test w res :
    client_request_outcome (client_of self options callback) = Returns res ->
    pristine w ->
    call_state {| objects := w;
                  unit_at := Running (run_from (client_of self options callback)
                                        (Returns res)) |}
| cs_committed w0 w u :
    pristine w0 ->
    thread (call w) <> None ->
    cancellation_event (call w) = Some CancellationEvent ->
    past_test (rest_of (client_of self options callback) u) ->
    (forall p, u = Running p -> is_executed (call w) = false) ->
    u <> Requesting ->
    view (finish (rest_of (client_of self options callback) u) w)
    = view (finish (run_from (client_of self options callback)
                      (client_request_outcome (client_of self options callback))) w0) ->
    call_state {| objects := w; unit_at := u |}.

(** The ways [run] can end, by what the caller sees at the end: how the
    unit ended, what the callback was invoked with, and the executed flag.
    A response is dropped because the event was set.  Or [res.json()]
    raises.  Or the callback is invoked and returns.  Or it raises, and its
    exception ends the unit: an exception that is no plain
    [PubNubException], or any exception when the invocation was that of
    [error_callback] for a failed round trip.  Or, on the path of a
    response, it raises a plain [PubNubException], which [error_callback]
    hands to it in a second invocation, from which it returns or raises. *)
Inductive run_end : outcome exception unit -> list callback_args -> bool -> Prop :=
| end_dropped res :
    client_request_outcome (client_of self options callback) = Returns res ->
    run_end (Returns tt) [] false
| end_undecodable res e :
    client_request_outcome (client_of self options callback) = Returns res ->
    res_json res = Raises e ->
    run_end (Raises e) [] false
| end_delivered first :
    callback [] first = Returns tt ->
    run_end (Returns tt) [first] true
| end_callback_raised first e :
    callback [] first = Raises e ->
    type_is_PubNubException e = false
    \/ (exists pe, client_request_outcome (client_of self options callback)
                   = Raises (Exc_PubNub pe)) ->
    run_end (Raises e) [first] false
| end_redelivered res first pe :
    client_request_outcome (client_of self options callback) = Returns res ->
    callback [] first = Raises (Exc_PubNub pe) ->
    callback [first] (error_args pe) = Returns tt ->
    run_end (Returns tt) [first; error_args pe] true
| end_redelivery_raised res first pe e :
    client_request_outcome (client_of self options callback) = Returns res ->
    callback [] first = Raises (Exc_PubNub pe) ->
    callback [first] (error_args pe) = Raises e ->
    run_end (Raises e) [first; error_args pe] false.

(** [args] is what the callback of the call gets first.  In every state
    the call can reach, whatever the schedule, if the callback has been
    invoked then its first invocation was with [args].  And a call that is
    not cancelled does invoke it: after [join] the first invocation is
    there, and when the callback returned from it, it is the only one and
    the executed flag is set. *)
Definition delivered_first (name : string) (args : callback_args) : Prop :=
  (forall flag sched first later,
      delivered (objects (exec (client_of self options callback) sched
                            (snd (request_async urlparse parse_qs self name options
                                    callback flag))))
      = first :: later ->
      first = args)
  /\ (forall sched,
        cancels sched = false ->
        exists later,
          delivered (objects (join (client_of self options callback)
                                (exec (client_of self options callback) sched
                                   (snd (request_async urlparse parse_qs self name options
                                           callback false)))))
          = args :: later
          /\ (callback [] args = Returns tt ->
              later = []
              /\ is_executed
                   (call (objects (join (client_of self options callback)
                                     (exec (client_of self options callback) sched
                                        (snd (request_async urlparse parse_qs self name
                                                options callback false))))))
                 = true)).

End DispatchNotions.

(** ** [pubnub/crypto.py] *)

(** The module imports [JSONDecodeError] from [json], which Python 3 alone
    has, so its version switch [v] is 3: of each function the Python 3
    branch is the one embedded. *)

Module Crypto.

Local Open Scope N_scope.

(** A Python 3 [str]: its code points.  A [bytes] object: its bytes. *)
Definition unicode : Type := list N.
Definition bytes : Type := list N.

(** The exceptions the functions of the module can meet, by class:
    their own, and those of the libraries they call.  [JSONDecodeError]
    derives from [ValueError]; an [except] clause for it does not catch a
    plain [ValueError]. *)
Inductive error : Set :=
| UnicodeEncodeError
| UnicodeDecodeError
| ValueError
| OverflowError
| ZeroDivisionError
| TypeError
| BinasciiError
| IndexError
| JSONDecodeError
| SyntaxError
| RecursionError.

#[global] Instance error_eq_dec : EqDecision error.
Proof. solve_decision. Defined.

#[global] Instance outcome_ret : MRet (outcome error) := fun _ a => Returns a.

#[global] Instance outcome_bind : MBind (outcome error) :=
  fun _ _ k m => match m with Returns a => k a | Raises e => Raises e end.

(** *** The UTF-8 codec of [str.encode] and [bytes.decode] *)

Definition is_surrogate (c : N) : bool := (0xD800 <=? c) && (c <=? 0xDFFF).

(** The code points UTF-8 can carry. *)
Definition is_scalar (c : N) : bool := (c <? 0x110000) && negb (is_surrogate c).

Definition encode_char (c : N) : option bytes :=
  if c <? 0x80 then Some [c]
  else if c <? 0x800 then Some [0xC0 + c / 64; 0x80 + c mod 64]
  else if c <? 0x10000 then
    if is_surrogate c then None
    else Some [0xE0 + c / 4096; 0x80 + (c / 64) mod 64; 0x80 + c mod 64]
  else if c <? 0x110000 then
    Some [0xF0 + c / 262144; 0x80 + (c / 4096) mod 64; 0x80 + (c / 64) mod 64;
          0x80 + c mod 64]
  else None.

(** [s.encode('utf-8')]; a lone surrogate raises [UnicodeEncodeError]. *)
Fixpoint encode_utf8 (s : unicode) : outcome error bytes :=
  match s with
  | [] => Returns []
  | c :: s' =>
      match encode_char c with
      | Some b => bs ← encode_utf8 s'; mret (b ++ bs)
      | None => Raises UnicodeEncodeError
      end
  end.

Definition is_continuation (b : N) : bool := (0x80 <=? b) && (b <? 0xC0).

(** [b.decode('utf-8')], strict: overlong forms, surrogates, truncated
    sequences and stray bytes raise [UnicodeDecodeError]. *)
Fixpoint decode_utf8 (b : bytes) : outcome error unicode :=
  match b with
  | [] => Returns []
  | b0 :: rest =>
      if b0 <? 0x80 then s ← decode_utf8 rest; mret (b0 :: s)
      else if b0 <? 0xC2 then Raises UnicodeDecodeError
      else if b0 <? 0xE0 then
        match rest with
        | b1 :: rest' =>
            if is_continuation b1
            then s ← decode_utf8 rest'; mret (((b0 - 0xC0) * 64 + (b1 - 0x80)) :: s)
            else Raises UnicodeDecodeError
        | _ => Raises UnicodeDecodeError
        end
      else if b0 <? 0xF0 then
        match rest with
        | b1 :: b2 :: rest' =>
            let c := (b0 - 0xE0) * 4096 + (b1 - 0x80) * 64 + (b2 - 0x80) in
            if is_continuation b1 && is_continuation b2 && (0x800 <=? c)
               && negb (is_surrogate c)
            then s ← decode_utf8 rest'; mret (c :: s)
            else Raises UnicodeDecodeError
        | _ => Raises UnicodeDecodeError
        end
      else if b0 <? 0xF5 then
        match rest with
        | b1 :: b2 :: b3 :: rest' =>
            let c := (b0 - 0xF0) * 262144 + (b1 - 0x80) * 4096 + (b2 - 0x80) * 64
                     + (b3 - 0x80) in
            if is_continuation b1 && is_continuation b2 && is_continuation b3
               && (0x10000 <=? c) && (c <? 0x110000)
            then s ← decode_utf8 rest'; mret (c :: s)
            else Raises UnicodeDecodeError
        | _ => Raises UnicodeDecodeError
        end
      else Raises UnicodeDecodeError
  end.

(** *** Python built-ins on sequences *)

(** [len(x)] *)
Definition len {A} (x : list A) : N := N.of_nat (length x).

(** [chr(n)]: a code point below 0x110000, [ValueError] for another
    number that fits a C int, [OverflowError] for one that does not. *)
Definition chr (n : Z) : outcome error N :=
  if ((n <? -2147483648) || (2147483647 <? n))%Z then Raises OverflowError
  else if ((0 <=? n) && (n <? 0x110000))%Z then Returns (Z.to_N n)
  else Raises ValueError.

(** [ord(c)] *)
Definition ord (c : N) : N := c.

(** [c * n] for a one-character string [c]; empty when [n] is not
    positive. *)
Definition str_times (c : N) (n : Z) : unicode := replicate (Z.to_nat n) c.

(** [a % b] on integers: the sign of the result is that of [b]. *)
Definition py_mod (a b : Z) : outcome error Z :=
  if (b =? 0)%Z then Raises ZeroDivisionError else Returns (a mod b)%Z.

(** [x[0:-k]] for [k >= 0]: minus zero is zero, so [x[0:-0]] is empty. *)
Definition slice_0_neg {A} (x : list A) (k : N) : list A :=
  if k =? 0 then [] else take (length x - N.to_nat k) x.

(** [s.replace("\n", "")] *)
Definition remove_newlines (s : unicode) : unicode :=
  filter (fun c => c <> 10) s.

(** What [decrypt] returns: a decoded JSON document, or the plain text. *)
Inductive value : Type :=
| Json (j : json)
| Plain (s : unicode).

(** [Initial16bytes = '0123456789012345'] *)
Definition Initial16bytes : unicode :=
  [48; 49; 50; 51; 52; 53; 54; 55; 56; 57; 48; 49; 50; 51; 52; 53].

(** [pad], in the Python 3 branch: [msg] is a [bytes] object and
    [block_size] an integer. *)
Definition pad (msg : bytes) (block_size : Z) : outcome error bytes :=
  r ← py_mod (Z.of_N (len msg)) block_size;
  let padding := (block_size - r)%Z in
  c ← chr padding;
  tail ← encode_utf8 (str_times c padding);
  mret (msg ++ tail).

(** [depad]; in the Python 3 branch [decrypt] applies it to a [str]. *)
Definition depad (msg : unicode) : outcome error unicode :=
  match last msg with
  | None => Raises IndexError
  | Some c => Returns (slice_0_neg msg (ord c))
  end.

(** [except (JSONDecodeError, SyntaxError)] *)
Definition is_JSONDecodeError_or_SyntaxError (e : error) : bool :=
  match e with
  | JSONDecodeError | SyntaxError => true
  | _ => false
  end.

Section Library.

(** The libraries the module calls, each of which may raise:
    [hashlib.sha256(b).hexdigest()], on bytes; [AES.new(key, AES.MODE_CBC,
    iv)], which builds a cipher object, and the methods [encrypt] and
    [decrypt] of such an object, each used once on a fresh object;
    [base64.encodebytes] and [base64.decodebytes]; [json.loads]. *)
Context (cipher : Type).
Context (sha256_hexdigest : bytes -> unicode).
Context (AES_new : unicode -> unicode -> outcome error cipher).
Context (cipher_encrypt cipher_decrypt : cipher -> bytes -> outcome error bytes).
Context (encodebytes : bytes -> bytes).
Context (decodebytes : bytes -> outcome error bytes).
Context (json_loads : unicode -> outcome error json).

(** [get_secret], Python 3 branch. *)
Definition get_secret (key : unicode) : outcome error unicode :=
  b ← encode_utf8 key;
  mret (sha256_hexdigest b).

(** [encrypt], Python 3 branch.  The cipher object is built before the
    message is looked at. *)
Definition encrypt (key msg : unicode) : outcome error unicode :=
  secret ← get_secret key;
  cipher ← AES_new (take 32 secret) Initial16bytes;
  b ← encode_utf8 msg;
  padded ← pad b 16;
  c ← cipher_encrypt cipher padded;
  s ← decode_utf8 (encodebytes c);
  mret (remove_newlines s).

(** [decrypt], Python 3 branch.  Of what [json.loads] raises, a
    [JSONDecodeError] and a [SyntaxError] are caught, and the plain text is
    returned; anything else leaves [decrypt]. *)
Definition decrypt (key msg : unicode) : outcome error value :=
  secret ← get_secret key;
  cipher ← AES_new (take 32 secret) Initial16bytes;
  b ← encode_utf8 msg;
  c ← decodebytes b;
  p ← cipher_decrypt cipher c;
  s ← decode_utf8 p;
  plain ← depad s;
  match json_loads plain with
  | Returns j => mret (Json j)
  | Raises e =>
      if is_JSONDecodeError_or_SyntaxError e then mret (Plain plain) else Raises e
  end.

End Library.

(** Text that UTF-8 can carry: no lone surrogate among the code points. *)
Definition encodable (s : unicode) : Prop := Forall (fun c => is_scalar c = true) s.

End Crypto.
(** ** Scenarios *)

Definition publish_url : string := "https://ps.pndsn.com/publish/x?uuid=abc&auth_key=k1".

Definition example_config : PNConfiguration :=
  {| scheme_and_host := "https://ps.pndsn.com"; connect_timeout := 5;
     non_subscribe_request_timeout := 10 |}.

Definition publish_options : RequestOptions :=
  {| path := "/publish/x"; method_string := "GET";
     query_string := "uuid=abc&auth_key=k1"; params := "uuid=abc&auth_key=k1";
     data := EmptyString; is_post := false |}.

(** Where a redirect sends the request of the scenarios. *)
Definition moved_url : string := "https://eu.pndsn.com/publish/x".

(** [urlparse] and [parse_qs] on the URLs of the scenarios. *)
Definition example_urlparse (u : string) : ParseResult :=
  if decide (u = publish_url)
  then {| scheme := "https"; hostname := Some "ps.pndsn.com"%string;
          query := "uuid=abc&auth_key=k1" |}
  else if decide (u = moved_url)
  then {| scheme := "https"; hostname := Some "eu.pndsn.com"%string;
          query := EmptyString |}
  else {| scheme := EmptyString; hostname := None; query := EmptyString |}.

Definition example_parse_qs (q : string) : gmap string (list string) :=
  if decide (q = "uuid=abc&auth_key=k1"%string)
  then {[ "uuid"%string := ["abc"%string]; "auth_key"%string := ["k1"%string] ]}
  else ∅.

(** A client whose session answers every request with [res]. *)
Definition answering (res : Response) : PubNub :=
  {| session := fun _ => Returns res; config := example_config; headers := [] |}.

(** A client whose session fails every request with [e]. *)
Definition failing (e : transport_exception) : PubNub :=
  {| session := fun _ => Raises e; config := example_config; headers := [] |}.

(** What the decoder says of a body that is no JSON text. *)
Definition expecting_value : json_failure :=
  {| failure_class := "JSONDecodeError";
     failure_message := "Expecting value: line 1 column 1 (char 0)" |}.

(** The double quote character, for JSON texts. *)
Definition dquote : string := String (Ascii.ascii_of_nat 34) EmptyString.

(** Status 200 with body [1,"Sent"]. *)
Definition sent_response : Response :=
  {| status_code := 200;
     text := Some ("[1," +:+ dquote +:+ "Sent" +:+ dquote +:+ "]");
     url := publish_url;
     json_body := Returns (JArray [JInt 1; JString "Sent"]);
     request := {| request_method := "GET"; request_url := publish_url |} |}.

(** Status 204 with an empty body. *)
Definition no_content_response : Response :=
  {| status_code := 204; text := Some EmptyString; url := publish_url;
     json_body := Raises expecting_value;
     request := {| request_method := "GET"; request_url := publish_url |} |}.

(** Status 200 with body [1,"Sent"], received after [requests] followed a
    redirect to [moved_url]. *)
Definition moved_response : Response :=
  {| status_code := 200;
     text := Some ("[1," +:+ dquote +:+ "Sent" +:+ dquote +:+ "]");
     url := moved_url;
     json_body := Returns (JArray [JInt 1; JString "Sent"]);
     request := {| request_method := "GET"; request_url := moved_url |} |}.

(** Status 403 with a JSON body. *)
Definition forbidden_response : Response :=
  {| status_code := 403; text := Some "{}"%string; url := publish_url;
     json_body := Returns (JObject []);
     request := {| request_method := "GET"; request_url := publish_url |} |}.

(** Status 404 with the plain text Not Found as body. *)
Definition not_found_response : Response :=
  {| status_code := 404; text := Some "Not Found"%string; url := publish_url;
     json_body := Raises expecting_value;
     request := {| request_method := "GET"; request_url := publish_url |} |}.

(** Status 502 from a gateway, with an HTML page as body. *)
Definition bad_gateway_response : Response :=
  {| status_code := 502; text := Some "<html>502 Bad Gateway</html>"%string;
     url := publish_url; json_body := Raises expecting_value;
     request := {| request_method := "GET"; request_url := publish_url |} |}.

Definition connection_refused : transport_exception :=
  RequestsExc Requests.ConnectionError "Connection refused".

Definition connect_timed_out : transport_exception :=
  RequestsExc Requests.ConnectTimeout "Connection to ps.pndsn.com timed out".

Definition read_timed_out : transport_exception :=
  RequestsExc Requests.ReadTimeout "Read timed out".

(** Callbacks: one that returns, one that raises [e] every time, and one
    that raises [e] the first time it is invoked and returns afterwards. *)
Definition returning : Callable := fun _ _ => Returns tt.

Definition raising (e : exception) : Callable := fun _ _ => Raises e.

Definition raising_first (e : exception) : Callable :=
  fun seen _ => match seen with [] => Raises e | _ => Returns tt end.

(** A [PubNubException] raised by the caller's own code, inside its
    callback. *)
Definition callback_error : PubNubException :=
  mkPubNubException PNERR_UNKNOWN_ERROR "cannot handle this result" None.

(** The asynchronous call of the scenarios: path /publish/x, query
    uuid=abc and auth_key=k1, endpoint name Publish. *)
Definition example_client (self : PubNub) (callback : Callable) : AsyncHTTPClient :=
  client_of example_urlparse example_parse_qs self publish_options callback.

Definition example_start (self : PubNub) (callback : Callable) (event_is_set : bool)
    : system :=
  snd (request_async example_urlparse example_parse_qs self "Publish" publish_options
         callback event_is_set).

(** What the callback is expected to get in each scenario. *)
Definition sent_args : callback_args :=
  {| cb_category := PNUnknownCategory;
     cb_body := Some (JArray [JInt 1; JString "Sent"]);
     cb_response_info :=
       Some {| ri_status_code := 200; tls_enabled := true;
               origin := Some "ps.pndsn.com"%string;
               uuid := Some "abc"%string; auth_key := Some "k1"%string;
               client_request := {| request_method := "GET"; request_url := publish_url |} |};
     cb_error := None |}.

Definition forbidden_args : callback_args :=
  {| cb_category := PNAccessDeniedCategory;
     cb_body := Some (JObject []);
     cb_response_info :=
       Some {| ri_status_code := 403; tls_enabled := true;
               origin := Some "ps.pndsn.com"%string;
               uuid := Some "abc"%string; auth_key := Some "k1"%string;
               client_request := {| request_method := "GET"; request_url := publish_url |} |};
     cb_error := Some (mkPubNubException PNERR_CLIENT_ERROR "{}" (Some 403)) |}.

(** What the callback gets for [moved_response]. *)
Definition moved_args : callback_args :=
  {| cb_category := PNUnknownCategory;
     cb_body := Some (JArray [JInt 1; JString "Sent"]);
     cb_response_info :=
       Some {| ri_status_code := 200; tls_enabled := true;
               origin := Some "eu.pndsn.com"%string;
               uuid := None; auth_key := None;
               client_request := {| request_method := "GET"; request_url := moved_url |} |};
     cb_error := None |}.

Definition refused_error : PubNubException :=
  mkPubNubException PNERR_CONNECTION_ERROR "Connection refused" None.

Definition refused_args : callback_args :=
  {| cb_category := PNUnexpectedDisconnectCategory; cb_body := None;
     cb_response_info := None; cb_error := Some refused_error |}.

(** What the callback gets for [callback_error]. *)
Definition callback_error_args : callback_args :=
  {| cb_category := PNBadRequestCategory; cb_body := None;
     cb_response_info := None; cb_error := Some callback_error |}.

(** What [res.json()] raises in the scenarios with a body that is no JSON. *)
Definition json_decode_error : exception :=
  Exc_Other "JSONDecodeError" "Expecting value: line 1 column 1 (char 0)".

(** *** Stand-ins for the libraries of [crypto.py]

    Small functions with the guarantees the round trip relies on, to run
    [encrypt] and [decrypt] on: a constant digest, a cipher that accepts a
    key of 32 and a vector of 16 characters and copies whole blocks, and a
    textual encoding that writes byte [n] as [n] letters A and a full stop,
    and ends the text with a line break. *)

Module StandIn.

Import Crypto.
Local Open Scope N_scope.

Definition sha256_hexdigest (b : bytes) : unicode := replicate 64 48.

Definition cipher : Type := unicode * unicode.

Definition AES_new (key iv : unicode) : outcome error cipher :=
  if decide (length key = 32%nat /\ length iv = 16%nat)
  then Returns (key, iv)
  else Raises ValueError.

Definition cipher_copy (c : cipher) (p : bytes) : outcome error bytes :=
  if decide (len p mod 16 = 0) then Returns p else Raises ValueError.

Definition encodebytes (b : bytes) : bytes :=
  flat_map (fun n => replicate (N.to_nat n) 65 ++ [46]) b ++ [10].

Fixpoint decode_from (count : N) (b : bytes) : outcome error bytes :=
  match b with
  | [] => if count =? 0 then Returns [] else Raises BinasciiError
  | x :: rest =>
      if x =? 65 then decode_from (count + 1) rest
      else if x =? 46 then out ← decode_from 0 rest; mret (count :: out)
      else if x =? 10 then decode_from count rest
      else Raises BinasciiError
  end.

Definition decodebytes (b : bytes) : outcome error bytes := decode_from 0 b.

(** [json.loads] on the two texts of the examples: [[1]] is JSON, any other
    text is taken not to be. *)
Definition json_loads (s : unicode) : outcome error json :=
  if decide (s = [91; 49; 93]) then Returns (JArray [JInt 1]) else Raises JSONDecodeError.

(** The key "k", the message "5 €" and the message "[1]". *)
Definition example_key : unicode := [107].
Definition example_message : unicode := [53; 32; 8364].
Definition example_json_message : unicode := [91; 49; 93].

(** A text that is one lone surrogate. *)
Definition lone_surrogate : unicode := [0xD83D].

End StandIn.

(** ** Basic facts about the code of the background unit *)

Section ProgFacts.

Context {A : Type}.

(** Running a sequence to its end is running its parts one after the
    other. *)
Lemma finish_bind {B} (m : prog A) (k : A -> prog B) (w : world) :
  finish (bind m k) w =
    match finish m w with
    | (Returns a, w') => finish (k a) w'
    | (Raises e, w') => (Raises e, w')
    end.
Proof.
  revert w. induction m as [[a|e]|c IH|f args c IH|c IH]; intros w; simpl; auto.
Qed.

(** The handler runs where the body stopped, on a [PubNubException] only,
    and its own exceptions are not handled. *)
Lemma finish_try_except (body : prog A) (handler : exception -> prog A) (w : world) :
  finish (try_except_PubNubException body handler) w =
    match finish body w with
    | (Returns a, w') => (Returns a, w')
    | (Raises e, w') =>
        if isinstance_PubNubException e then finish (handler e) w' else (Raises e, w')
    end.
Proof.
  revert w. induction body as [[a|e]|c IH|f args c IH|c IH]; intros w; simpl; auto.
  destruct (isinstance_PubNubException e); reflexivity.
Qed.

(** Doing the first action and then the rest is doing everything. *)
Lemma finish_step (p : prog A) (w : world) :
  finish (fst (step_prog p w)) (snd (step_prog p w)) = finish p w.
Proof. destruct p; reflexivity. Qed.

(** The code of the unit writes neither the thread, nor the event, nor
    [is_canceled]. *)
Lemma step_prog_keeps (p : prog A) (w : world) :
  event_flag (snd (step_prog p w)) = event_flag w
  /\ is_canceled (call (snd (step_prog p w))) = is_canceled (call w)
  /\ cancellation_event (call (snd (step_prog p w))) = cancellation_event (call w)
  /\ thread (call (snd (step_prog p w))) = thread (call w).
Proof. destruct p; simpl; auto. Qed.


(** Invocations are only ever added, and the executed flag is never
    cleared. *)
Lemma step_prog_delivered (p : prog A) (w : world) :
  exists more, delivered (snd (step_prog p w)) = delivered w ++ more.
Proof.
  destruct p; simpl; try (exists []; rewrite app_nil_r; reflexivity).
  eexists. reflexivity.
Qed.

Lemma finish_delivered (p : prog A) (w : world) :
  exists more, delivered (snd (finish p w)) = delivered w ++ more.
Proof.
  revert w. induction p as [o|c IH|f args c IH|c IH]; intros w; simpl.
  - exists []. rewrite app_nil_r. reflexivity.
  - apply IH.
  - destruct (IH (f (delivered w) args) (with_invocation args w)) as [more Hm].
    exists (args :: more). rewrite Hm. simpl. rewrite <- app_assoc. reflexivity.
  - apply (IH (with_executed w)).
Qed.

Lemma finish_executed (p : prog A) (w : world) :
  is_executed (call w) = true -> is_executed (call (snd (finish p w))) = true.
Proof.
  revert w. induction p as [o|c IH|f args c IH|c IH]; intros w Hx; simpl; auto.
Qed.

End ProgFacts.

(** *** Code past the test of the event *)

Lemma past_test_try_except (body : prog unit) (handler : exception -> prog unit) :
  past_test body -> (forall e, past_test (handler e)) ->
  past_test (try_except_PubNubException body handler).
Proof.
  intros Hb Hh. induction Hb as [[a|e]|f args k _ IH|a]; simpl.
  - constructor.
  - destruct (isinstance_PubNubException e); [apply Hh | constructor].
  - constructor. exact IH.
  - constructor.
Qed.

Lemma past_test_delivery (f : Callable) (args : callback_args) :
  past_test (invoke f args ;;; executed_cb).
Proof. constructor. intros [[]|e]; constructor. Qed.

Lemma past_test_step (p : prog unit) (w : world) :
  past_test p -> past_test (fst (step_prog p w)).
Proof. intros [o|f args k Hk|a]; simpl; auto; constructor. Qed.

(** Such code looks at the invocations made so far only, and it sets the
    executed flag whatever the flag was: how it ends does not depend on
    what [cancel] writes. *)
Lemma past_test_view (p : prog unit) (w1 w2 : world) :
  past_test p ->
  delivered w1 = delivered w2 ->
  is_executed (call w1) = is_executed (call w2) ->
  view (finish p w1) = view (finish p w2).
Proof.
  intros Hp. revert w1 w2.
  induction Hp as [o|f args k _ IH|a]; intros w1 w2 Hd He; unfold view in *; simpl.
  - rewrite Hd, He. reflexivity.
  - rewrite Hd. apply IH; simpl; congruence.
  - rewrite Hd. reflexivity.
Qed.

(** One delivery, spelled out. *)
Lemma delivery_outcome (f : Callable) (args : callback_args) (w : world) :
  delivery f args w =
    match f (delivered w) args with
    | Returns _ => (Returns tt, invoked_then_executed args w)
    | Raises e => (Raises e, with_invocation args w)
    end.
Proof.
  unfold delivery. simpl. destruct (f (delivered w) args) as [[]|e]; reflexivity.
Qed.

(** ** Basic facts about the dispatch code *)

Section DispatchFacts.

Context (urlparse : string -> ParseResult).
Context (parse_qs : string -> gmap string (list string)).
Context (callback : Callable).

Abbreviation success_callback := (success_callback urlparse parse_qs callback).
Abbreviation request_async := (request_async urlparse parse_qs).
Abbreviation client_of := (client_of urlparse parse_qs).
Abbreviation describes_response := (describes_response urlparse parse_qs).

Lemma request_async_client self name options flag :
  fst (request_async self name options callback flag) = client_of self options callback.
Proof. reflexivity. Qed.

Lemma invoked_then_executed_delivered args w :
  delivered (invoked_then_executed args w) = delivered w ++ [args].
Proof. reflexivity. Qed.

Lemma invoked_then_executed_flag args w :
  is_executed (call (invoked_then_executed args w)) = true.
Proof. reflexivity. Qed.

(** [success_callback] on a body that is JSON: one delivery. *)
Lemma success_callback_json res body :
  json_body res = Returns body ->
  exists args,
    success_callback res = (invoke callback args ;;; executed_cb)
    /\ describes_response res body args.
Proof.
  intros Hj.
  assert (Hhead : forall vs : list string,
             (if (0 <? length vs)%nat then vs !! 0%nat else None) = head vs).
  { intros [|v vs]; reflexivity. }
  unfold success_callback, lift, res_json, Requests.codes_ok,
    describes_response.
  rewrite Hj.
  destruct (status_code res =? 200) eqn:H200; simpl.
  - apply Z.eqb_eq in H200. rewrite H200. simpl.
    eexists. split; [reflexivity|]. simpl.
    repeat split. eexists. split; [reflexivity|]. simpl.
    repeat split; destruct (parse_qs _ !! _); simpl; auto.
  - eexists. split; [reflexivity|]. simpl.
    split; [reflexivity|].
    split.
    { destruct (status_code res =? 400) eqn:H400; [reflexivity|].
      destruct (status_code res =? 403); reflexivity. }
    split.
    { eexists. split; [reflexivity|]. simpl.
      repeat split; destruct (parse_qs _ !! _); simpl; auto. }
    destruct (text res); reflexivity.
Qed.

(** [success_callback] on a body that is not JSON: the exception of
    [res.json()] leaves the closure before the callback is reached. *)
Lemma success_callback_not_json res e :
  res_json res = Raises e -> success_callback res = Done (Raises e).
Proof.
  intros Hj. unfold success_callback, lift. rewrite Hj.
  destruct (negb _); reflexivity.
Qed.

(** What [res.json()] raises is no [PubNubException]. *)
Lemma res_json_raises res e :
  res_json res = Raises e -> isinstance_PubNubException e = false.
Proof. unfold res_json. destruct (json_body res); [discriminate|]. intros [= <-]. reflexivity. Qed.

Lemma res_json_cases res :
  (exists body, json_body res = Returns body /\ res_json res = Returns body)
  \/ (exists e, res_json res = Raises e /\ isinstance_PubNubException e = false).
Proof.
  unfold res_json. destruct (json_body res) as [body|f]; [left|right]; eauto.
Qed.

(** [error_callback] on an exception whose type is exactly
    [PubNubException]: one delivery. *)
Lemma error_callback_PubNub pe :
  error_callback callback (Exc_PubNub pe) = (invoke callback (error_args pe) ;;; executed_cb).
Proof. reflexivity. Qed.

Lemma error_callback_reraises e :
  type_is_PubNubException e = false -> error_callback callback e = Done (Raises e).
Proof. destruct e; simpl; [discriminate | reflexivity | reflexivity]. Qed.

Lemma past_test_success_callback res : past_test (success_callback res).
Proof.
  destruct (res_json_cases res) as [(body & Hj & _)|(e & Hj & _)].
  - destruct (success_callback_json res body Hj) as (args & -> & _).
    apply past_test_delivery.
  - rewrite (success_callback_not_json res e Hj). constructor.
Qed.

Lemma past_test_error_callback e : past_test (error_callback callback e).
Proof.
  destruct e as [pe|cls pe|cls msg]; [|constructor|constructor].
  rewrite error_callback_PubNub. apply past_test_delivery.
Qed.

End DispatchFacts.

(** ** The background unit of a call made by [request_async] *)

Section SystemFacts.

Context (urlparse : string -> ParseResult).
Context (parse_qs : string -> gmap string (list string)).
Context (self : PubNub) (options : RequestOptions) (callback : Callable).

Abbreviation client := (client_of urlparse parse_qs self options callback).
Abbreviation round_trip :=
  (client_request_outcome (client_of urlparse parse_qs self options callback)).
Abbreviation call_state := (call_state urlparse parse_qs self options callback).
Abbreviation after_test res :=
  (try_except_PubNubException (success_callback urlparse parse_qs callback res)
     (error_callback callback)).

(** [pn_request] returns a response or raises a plain [PubNubException]. *)
Lemma round_trip_shape :
  (exists res, round_trip = Returns res)
  \/ (exists pe, round_trip = Raises (Exc_PubNub pe)).
Proof.
  unfold client_request_outcome, pn_request; simpl.
  destruct (session self _) as [res|e]; [left; eauto|right].
  repeat (destruct (isinstance e _); [eauto|]). eauto.
Qed.

(** The first action of [run] on a response is the test of the event. *)
Lemma step_run_response res w :
  step_prog (run_from client (Returns res)) w
  = (if event_flag w then Done (Returns tt) else after_test res, w).
Proof. simpl. destruct (event_flag w); reflexivity. Qed.

(** A response that comes back after the event was set is dropped. *)
Lemma finish_run_cancelled res w :
  event_flag w = true -> finish (run_from client (Returns res)) w = (Returns tt, w).
Proof. intros Hf. simpl. rewrite Hf. reflexivity. Qed.

(** Otherwise it is handed to [success_callback], inside the [try]. *)
Lemma finish_run_live res w :
  event_flag w = false ->
  finish (run_from client (Returns res)) w = finish (after_test res) w.
Proof. intros Hf. simpl. rewrite Hf. reflexivity. Qed.

(** What [res.json()] raises leaves [run] before the callback is reached. *)
Lemma finish_after_test_not_json res e w :
  res_json res = Raises e -> finish (after_test res) w = (Raises e, w).
Proof.
  intros Hj. rewrite (success_callback_not_json urlparse parse_qs callback res e Hj).
  simpl. rewrite (res_json_raises res e Hj). reflexivity.
Qed.

(** [error_callback] as the handler of [run]: a plain [PubNubException] is
    delivered, anything else is raised again. *)
Lemma finish_error_callback_PubNub pe w :
  finish (error_callback callback (Exc_PubNub pe)) w = delivery callback (error_args pe) w.
Proof. reflexivity. Qed.

Lemma finish_error_callback_reraises e w :
  type_is_PubNubException e = false ->
  finish (error_callback callback e) w = (Raises e, w).
Proof. intros He. rewrite error_callback_reraises by exact He. reflexivity. Qed.

(** A body that is JSON is delivered; when the callback raises, the
    exception is inside the [try] of [run]: a plain [PubNubException] goes
    to [error_callback], which delivers it to the same callback, and
    anything else leaves [run]. *)
Lemma finish_after_test_json res body :
  json_body res = Returns body ->
  exists args,
    describes_response urlparse parse_qs res body args
    /\ forall w,
         finish (after_test res) w =
           match callback (delivered w) args with
           | Returns _ => (Returns tt, invoked_then_executed args w)
           | Raises (Exc_PubNub pe) =>
               delivery callback (error_args pe) (with_invocation args w)
           | Raises e => (Raises e, with_invocation args w)
           end.
Proof.
  intros Hj.
  destruct (success_callback_json urlparse parse_qs callback res body Hj) as (args & Heq & Hdesc).
  exists args. split; [exact Hdesc|]. intros w.
  rewrite Heq, finish_try_except.
  change (finish (invoke callback args;;; executed_cb) w) with (delivery callback args w).
  rewrite delivery_outcome.
  destruct (callback (delivered w) args) as [[]|[pe|cls pe|cls msg]]; reflexivity.
Qed.

(** A [PubNubException] raised by [pn_request] goes to [error_callback],
    whatever the state of the event. *)
Lemma finish_run_PubNub pe w :
  finish (run_from client (Raises (Exc_PubNub pe))) w = delivery callback (error_args pe) w.
Proof. reflexivity. Qed.

(** Any other exception leaves [run], and the world is as it was. *)
Lemma finish_run_other e w :
  type_is_PubNubException e = false ->
  finish (run_from client (Raises e)) w = (Raises e, w).
Proof. destruct e; simpl; [discriminate | reflexivity | reflexivity]. Qed.

(** All the ways [run] can go, from a world in which nothing has been
    delivered. *)
Lemma finish_run_cases w0 :
  delivered w0 = [] ->
  match round_trip with
  | Returns res =>
      if event_flag w0 then finish (run_from client round_trip) w0 = (Returns tt, w0)
      else
        match res_json res with
        | Raises e => finish (run_from client round_trip) w0 = (Raises e, w0)
        | Returns body =>
            exists args,
              describes_response urlparse parse_qs res body args
              /\ match callback [] args with
                 | Returns _ =>
                     finish (run_from client round_trip) w0
                     = (Returns tt, invoked_then_executed args w0)
                 | Raises (Exc_PubNub pe) =>
                     finish (run_from client round_trip) w0
                     = match callback [args] (error_args pe) with
                       | Returns _ =>
                           (Returns tt,
                            invoked_then_executed (error_args pe) (with_invocation args w0))
                       | Raises e' =>
                           (Raises e',
                            with_invocation (error_args pe) (with_invocation args w0))
                       end
                 | Raises e =>
                     finish (run_from client round_trip) w0 = (Raises e, with_invocation args w0)
                 end
        end
  | Raises (Exc_PubNub pe) =>
      finish (run_from client round_trip) w0
      = match callback [] (error_args pe) with
        | Returns _ => (Returns tt, invoked_then_executed (error_args pe) w0)
        | Raises e' => (Raises e', with_invocation (error_args pe) w0)
        end
  | Raises e => finish (run_from client round_trip) w0 = (Raises e, w0)
  end.
Proof.
  intros Hd.
  destruct round_trip as [res|e] eqn:Hrt.
  - destruct (event_flag w0) eqn:Hf; [apply finish_run_cancelled, Hf|].
    rewrite finish_run_live by exact Hf.
    destruct (res_json res) as [body|e] eqn:Hj; [|apply finish_after_test_not_json, Hj].
    assert (Hb : json_body res = Returns body).
    { unfold res_json in Hj. destruct (json_body res); congruence. }
    destruct (finish_after_test_json res body Hb) as (args & Hdesc & Hfin).
    exists args. split; [exact Hdesc|].
    rewrite Hfin, Hd.
    destruct (callback [] args) as [[]|[pe|cls pe|cls msg]]; try reflexivity.
    rewrite delivery_outcome. simpl. rewrite Hd. reflexivity.
  - destruct e as [pe|cls pe|cls msg].
    + rewrite finish_run_PubNub, delivery_outcome, Hd. reflexivity.
    + apply finish_run_other. reflexivity.
    + apply finish_run_other. reflexivity.
Qed.

(** [run] ends in one of the ways of [run_end]. *)
Lemma finish_run_end w0 :
  delivered w0 = [] ->
  is_executed (call w0) = false ->
  run_end urlparse parse_qs self options callback
    (fst (finish (run_from client round_trip) w0))
    (delivered (snd (finish (run_from client round_trip) w0)))
    (is_executed (call (snd (finish (run_from client round_trip) w0)))).
Proof.
  intros Hd Hx.
  pose proof (finish_run_cases w0 Hd) as H.
  destruct round_trip_shape as [[res Hrt]|[pe Hrt]]; rewrite Hrt in H |- *.
  - destruct (event_flag w0) eqn:Hf.
    { rewrite H. cbn [fst snd]. rewrite Hd, Hx. eapply end_dropped, Hrt. }
    destruct (res_json res) as [body|e] eqn:Hj.
    2:{ rewrite H. cbn [fst snd]. rewrite Hd, Hx. eapply end_undecodable; eauto. }
    destruct H as (args & _ & H).
    destruct (callback [] args) as [[]|[pe|cls pe|cls msg]] eqn:Hcb; rewrite H.
    + cbn. rewrite Hd. apply end_delivered, Hcb.
    + destruct (callback [args] (error_args pe)) as [[]|e'] eqn:Hcb2;
        cbn; rewrite Hd; cbn; rewrite ?Hx.
      * eapply end_redelivered; eauto.
      * eapply end_redelivery_raised; eauto.
    + cbn. rewrite Hd, Hx. apply end_callback_raised; auto.
    + cbn. rewrite Hd, Hx. apply end_callback_raised; auto.
  - rewrite H.
    destruct (callback [] (error_args pe)) as [[]|e'] eqn:Hcb; cbn; rewrite Hd; rewrite ?Hx.
    + apply end_delivered, Hcb.
    + apply end_callback_raised; eauto.
Qed.

(** [cancel] touches neither the deliveries nor the executed flag. *)
Lemma cancel_delivered w : delivered (snd (cancel w)) = delivered w.
Proof. unfold cancel. destruct (cancellation_event (call w)) as [[]|]; reflexivity. Qed.

Lemma cancel_is_executed w : is_executed (call (snd (cancel w))) = is_executed (call w).
Proof. unfold cancel. destruct (cancellation_event (call w)) as [[]|]; reflexivity. Qed.

Lemma cancel_thread w : thread (call (snd (cancel w))) = thread (call w).
Proof. unfold cancel. destruct (cancellation_event (call w)) as [[]|]; reflexivity. Qed.

Lemma cancel_cancellation_event w :
  cancellation_event (call (snd (cancel w))) = cancellation_event (call w).
Proof.
  unfold cancel. destruct (cancellation_event (call w)) as [[]|] eqn:Hc; simpl; congruence.
Qed.

Lemma cancel_sets_flag w :
  cancellation_event (call w) = Some CancellationEvent -> event_flag (snd (cancel w)) = true.
Proof. unfold cancel. intros ->. reflexivity. Qed.

Lemma cancel_keeps_flag w : event_flag w = true -> event_flag (snd (cancel w)) = true.
Proof. unfold cancel. destruct (cancellation_event (call w)) as [[]|]; auto. Qed.

Lemma exec_app sched1 sched2 s :
  exec client (sched1 ++ sched2) s = exec client sched2 (exec client sched1 s).
Proof. unfold exec. apply foldl_app. Qed.

Lemma exec_cons a sched s :
  exec client (a :: sched) s = exec client sched (perform client s a).
Proof. reflexivity. Qed.

Lemma pristine_cancel w : pristine w -> pristine (snd (cancel w)).
Proof.
  intros (Hd & He & Ht & Hc). unfold pristine.
  rewrite cancel_delivered, cancel_is_executed, cancel_thread, cancel_cancellation_event.
  auto.
Qed.

Lemma rest_of_position p : rest_of client (position p) = p.
Proof. destruct p; reflexivity. Qed.

Lemma position_not_requesting p : position p <> Requesting.
Proof. destruct p; discriminate. Qed.

Lemma position_running p q : position p = Running q -> p = q /\ forall o, p <> Done o.
Proof. destruct p; simpl; intros [= <-]; split; auto; discriminate. Qed.

(** Every move of the caller or of the unit leads from a state of the call
    to a state of the call. *)
Lemma call_state_perform s a : call_state s -> call_state (perform client s a).
Proof.
  intros Hs. destruct a; simpl.
  - unfold caller_cancel.
    destruct Hs as [w Hw|w res Hres Hw|w0 w u Hw0 Hth Hce Hpt Hx Hu Hv]; simpl.
    + apply cs_requesting, pristine_cancel, Hw.
    + apply cs_before_test; [exact Hres | apply pristine_cancel, Hw].
    + apply (cs_committed _ _ _ _ _ w0); auto.
      * rewrite cancel_thread; exact Hth.
      * rewrite cancel_cancellation_event; exact Hce.
      * intros p Hp. rewrite cancel_is_executed. eauto.
      * rewrite <- Hv. apply past_test_view; [exact Hpt | apply cancel_delivered
                                              | apply cancel_is_executed].
  - unfold unit_step.
    destruct Hs as [w Hw|w res Hres Hw|w0 w u Hw0 Hth Hce Hpt Hx Hu Hv];
      cbn [unit_at objects].
    + destruct round_trip as [res|e] eqn:Hrt.
      * apply cs_before_test; [exact Hrt | exact Hw].
      * assert (Hpast : past_test (run_from client (Raises e))).
        { apply past_test_try_except; [constructor | apply past_test_error_callback]. }
        destruct Hw as (H1 & H2 & H3 & H4).
        apply (cs_committed _ _ _ _ _ w); try rewrite rest_of_position;
          try rewrite Hrt; auto.
        -- repeat split; auto.
        -- apply position_not_requesting.
    + rewrite step_run_response.
      assert (Hpast : past_test (if event_flag w then Done (Returns tt) else after_test res)).
      { destruct (event_flag w); [constructor|].
        apply past_test_try_except;
          [apply past_test_success_callback | apply past_test_error_callback]. }
      pose proof Hw as (H1 & H2 & H3 & H4).
      apply (cs_committed _ _ _ _ _ w); try rewrite rest_of_position; auto.
      * apply position_not_requesting.
      * rewrite Hres. destruct (event_flag w) eqn:Hf.
        -- rewrite finish_run_cancelled by exact Hf. reflexivity.
        -- rewrite finish_run_live by exact Hf. reflexivity.
    + destruct u as [|p|o]; [congruence| |].
      * simpl in Hpt, Hv.
        pose proof (finish_step p w) as Hfs.
        pose proof (step_prog_keeps p w) as (_ & _ & Hce' & Hth').
        pose proof (past_test_step p w Hpt) as Hpt'.
        assert (Hx' : forall q, position (fst (step_prog p w)) = Running q ->
                                is_executed (call (snd (step_prog p w))) = false).
        { intros q Hq. apply position_running in Hq as [Hq Hnd].
          destruct Hpt as [o|f args k Hk|a]; simpl in *.
          - exfalso. eapply Hnd. reflexivity.
          - eauto.
          - exfalso. eapply Hnd. reflexivity. }
        destruct (step_prog p w) as [p' w']. simpl in *.
        apply (cs_committed _ _ _ _ _ w0); try rewrite rest_of_position; auto.
        -- congruence.
        -- congruence.
        -- apply position_not_requesting.
        -- rewrite Hfs. exact Hv.
      * apply (cs_committed _ _ _ _ _ w0); auto.
Qed.

Lemma call_state_initial name flag :
  call_state (snd (request_async urlparse parse_qs self name options callback flag)).
Proof. apply cs_requesting. repeat split; simpl; congruence. Qed.

Lemma call_state_exec sched s : call_state s -> call_state (exec client sched s).
Proof.
  revert s. induction sched as [|a sched IH]; intros s Hs; [exact Hs|].
  rewrite exec_cons. apply IH, call_state_perform, Hs.
Qed.

(** The handle of a call has its thread and its event. *)
Lemma call_state_handle s :
  call_state s ->
  thread (call (objects s)) <> None
  /\ cancellation_event (call (objects s)) = Some CancellationEvent.
Proof.
  intros [w (_ & _ & H3 & H4)|w res _ (_ & _ & H3 & H4)|w0 w u _ Hth Hce _ _ _ _]; auto.
Qed.

(** Once the unit is over, no schedule changes what was delivered. *)
Lemma terminated_perform s a o :
  unit_at s = Terminated o ->
  unit_at (perform client s a) = Terminated o
  /\ delivered (objects (perform client s a)) = delivered (objects s)
  /\ is_executed (call (objects (perform client s a))) = is_executed (call (objects s)).
Proof.
  intros Ht. destruct a; simpl.
  - unfold caller_cancel; simpl. rewrite cancel_delivered, cancel_is_executed. auto.
  - unfold unit_step. rewrite Ht. auto.
Qed.

Lemma terminated_exec sched s o :
  unit_at s = Terminated o ->
  unit_at (exec client sched s) = Terminated o
  /\ delivered (objects (exec client sched s)) = delivered (objects s)
  /\ is_executed (call (objects (exec client sched s))) = is_executed (call (objects s)).
Proof.
  revert s. induction sched as [|a sched IH]; intros s Ht; [auto|].
  rewrite exec_cons.
  destruct (terminated_perform s a o Ht) as (Ht' & Hd & He).
  destruct (IH _ Ht') as (? & ? & ?). repeat split; congruence.
Qed.

(** The executed flag is only ever set by a unit that is over. *)
Lemma executed_terminated s :
  call_state s -> is_executed (call (objects s)) = true -> exists o, unit_at s = Terminated o.
Proof.
  intros [w Hw|w res _ Hw|w0 w u _ _ _ _ Hx Hu _] Hex; simpl in *.
  - destruct Hw as (_ & Hw & _). congruence.
  - destruct Hw as (_ & Hw & _). congruence.
  - destruct u as [|p|o]; [congruence| |eauto].
    rewrite (Hx p eq_refl) in Hex. discriminate.
Qed.

(** In every state of a call, what has been delivered so far is the
    beginning of what [run], started in a world where nothing had been
    delivered, delivers in all; and a unit that is over has ended as that
    run ends. *)
Lemma call_state_run s :
  call_state s ->
  exists w0,
    pristine w0
    /\ (exists more,
          delivered (snd (finish (run_from client round_trip) w0))
          = delivered (objects s) ++ more)
    /\ (is_executed (call (objects s)) = true ->
        is_executed (call (snd (finish (run_from client round_trip) w0))) = true)
    /\ (forall o, unit_at s = Terminated o ->
          o = fst (finish (run_from client round_trip) w0)
          /\ delivered (objects s) = delivered (snd (finish (run_from client round_trip) w0))
          /\ is_executed (call (objects s))
             = is_executed (call (snd (finish (run_from client round_trip) w0)))).
Proof.
  intros [w Hw|w res _ Hw|w0 w u Hw0 _ _ _ _ _ Hv]; simpl.
  - exists w. split; [exact Hw|]. destruct Hw as (Hd & He & _).
    split; [rewrite Hd; eauto|]. split; [congruence | discriminate].
  - exists w. split; [exact Hw|]. destruct Hw as (Hd & He & _).
    split; [rewrite Hd; eauto|]. split; [congruence | discriminate].
  - exists w0. split; [exact Hw0|].
    unfold view in Hv. injection Hv as Ho Hd He.
    split; [rewrite <- Hd; apply finish_delivered|].
    split; [intros Hx; rewrite <- He; apply finish_executed, Hx|].
    intros o ->. simpl in *. auto.
Qed.

(** The same, by the ways [run] can end. *)
Lemma call_state_end s :
  call_state s ->
  exists o ds x,
    run_end urlparse parse_qs self options callback o ds x
    /\ (exists more, ds = delivered (objects s) ++ more)
    /\ (is_executed (call (objects s)) = true -> x = true)
    /\ (forall o', unit_at s = Terminated o' ->
          o' = o /\ delivered (objects s) = ds /\ is_executed (call (objects s)) = x).
Proof.
  intros Hs.
  destruct (call_state_run s Hs) as (w0 & (Hd0 & Hx0 & _) & Hmore & Hmono & Hover).
  pose proof (finish_run_end w0 Hd0 Hx0) as Hend.
  eauto 10.
Qed.

(** [join] waits for the end of the unit: it ends as [run], started in a
    world where nothing had been delivered, ends. *)
Lemma join_terminated s :
  call_state s ->
  exists w0,
    pristine w0
    /\ unit_at (join client s) = Terminated (fst (finish (run_from client round_trip) w0))
    /\ delivered (objects (join client s))
       = delivered (snd (finish (run_from client round_trip) w0))
    /\ is_executed (call (objects (join client s)))
       = is_executed (call (snd (finish (run_from client round_trip) w0))).
Proof.
  intros Hs. unfold join.
  destruct (call_state_handle s Hs) as [Hth _].
  destruct (thread (call (objects s))) eqn:Hth'; [clear Hth|congruence].
  destruct Hs as [w Hw|w res Hres Hw|w0 w u Hw0 _ _ _ _ Hu Hv]; cbn [unit_at objects].
  - exists w. split; [exact Hw|].
    destruct (finish (run_from client round_trip) w) as [o w'] eqn:Hrun.
    cbn [unit_at objects fst snd]. auto.
  - exists w. split; [exact Hw|]. rewrite Hres.
    destruct (finish (run_from client (Returns res)) w) as [o w'] eqn:Hrun.
    cbn [unit_at objects fst snd]. auto.
  - exists w0. split; [exact Hw0|].
    unfold view in Hv. injection Hv as Ho Hd He.
    destruct u as [|p|o]; [congruence| |]; cbn [rest_of finish] in *.
    + destruct (finish p w) as [o w'] eqn:Hrun. cbn [unit_at objects fst snd] in *.
      subst. auto.
    + cbn [unit_at objects fst snd] in *. subst. auto.
Qed.

(** A move of the unit does not change where [join] ends. *)
Lemma join_unit_step s :
  thread (call (objects s)) <> None ->
  join client (unit_step client s) = join client s.
Proof.
  intros Hth. unfold join, unit_step.
  destruct (unit_at s) as [|p|o] eqn:Hu; simpl.
  - destruct (thread (call (objects s))); [|congruence].
    destruct (run_from client round_trip) as [o|c|f args c|c] eqn:Hrun; simpl; reflexivity.
  - pose proof (finish_step p (objects s)) as Hfs.
    pose proof (step_prog_keeps p (objects s)) as (_ & _ & _ & Hth').
    destruct (step_prog p (objects s)) as [p' w']. simpl in *.
    rewrite Hth'.
    destruct (thread (call (objects s))); [|congruence].
    rewrite <- Hfs.
    destruct p' as [o|c|f args c|c]; simpl; reflexivity.
  - rewrite Hu. reflexivity.
Qed.


(** What [join] waits for is so many moves of the unit. *)
Lemma finish_is_unit_steps (p : prog unit) (w : world) :
  exists n,
    exec client (replicate n UnitStep) {| objects := w; unit_at := position p |}
    = {| objects := snd (finish p w); unit_at := Terminated (fst (finish p w)) |}.
Proof.
  revert w. induction p as [o|c IH|f args c IH|c IH]; intros w.
  - exists 0%nat. reflexivity.
  - destruct (IH (event_flag w) w) as [n Hn]. exists (S n). exact Hn.
  - destruct (IH (f (delivered w) args) (with_invocation args w)) as [n Hn].
    exists (S n). exact Hn.
  - destruct (IH (with_executed w)) as [n Hn]. exists (S n). exact Hn.
Qed.

Lemma join_is_unit_steps s :
  thread (call (objects s)) <> None ->
  exists n, join client s = exec client (replicate n UnitStep) s.
Proof.
  intros Hth. unfold join. destruct (thread (call (objects s))); [|congruence].
  destruct s as [w u]; cbn [objects unit_at]. destruct u as [|p|o].
  - destruct (finish_is_unit_steps (run_from client round_trip) w) as [n Hn].
    exists (S n). cbn [replicate]. rewrite exec_cons. cbn [perform]. unfold unit_step.
    cbn [objects unit_at]. rewrite Hn.
    destruct (finish (run_from client round_trip) w); reflexivity.
  - destruct (finish_is_unit_steps p w) as [n Hn].
    destruct p as [o|c|f args c|c].
    + exists 1%nat. reflexivity.
    + exists n. cbn [position] in Hn. rewrite Hn.
      destruct (finish (IsSet c) w); reflexivity.
    + exists n. cbn [position] in Hn. rewrite Hn.
      destruct (finish (Invoke f args c) w); reflexivity.
    + exists n. cbn [position] in Hn. rewrite Hn.
      destruct (finish (SetExecuted c) w); reflexivity.
  - exists 0%nat. reflexivity.
Qed.

Lemma unit_step_thread s :
  thread (call (objects (unit_step client s))) = thread (call (objects s)).
Proof.
  unfold unit_step. destruct (unit_at s) as [|p|o]; simpl; auto.
  pose proof (step_prog_keeps p (objects s)) as (_ & _ & _ & Hth').
  destruct (step_prog p (objects s)) as [p' w']. exact Hth'.
Qed.

(** A schedule without [cancel] is so many moves of the unit, and [join]
    after it ends where [join] at once ends. *)
Lemma join_uncancelled sched s :
  thread (call (objects s)) <> None ->
  cancels sched = false ->
  join client (exec client sched s) = join client s.
Proof.
  revert s. induction sched as [|a sched IH]; intros s Hth Hc; [reflexivity|].
  destruct a; [discriminate|]. simpl in Hc.
  rewrite exec_cons. simpl.
  rewrite IH; [apply join_unit_step, Hth | rewrite unit_step_thread; exact Hth | exact Hc].
Qed.

End SystemFacts.

(** ** The synchronous path *)

(** C3, counterexample.  A response with status 204 is a 2xx response, and
    [request_sync] raises a client error for it instead of returning it:
    the code compares the status with [requests.codes.ok], which is 200. *)
Lemma request_sync_204_raises :
  (200 <= status_code no_content_response < 300)
  /\ request_sync (answering no_content_response) publish_options
     = Raises (Exc_PubNub (mkPubNubException PNERR_CLIENT_ERROR EmptyString (Some 204))).
Proof. split; [simpl; lia | reflexivity]. Qed.

(** C3, amended.  When [request_sync] receives a response, it returns the
    response if its status is 200, and otherwise raises a [PubNubException]
    whose kind is the server error when the status is at least 500 and the
    client error below that, whose message is the body text, or N/A when
    the text is absent, and which carries the status code. *)
Theorem request_sync_raises_unless_200 (self : PubNub) (options : RequestOptions)
    (res : Response) :
  pn_request (session self) (scheme_and_host (config self)) (headers self) options
    (connect_timeout (config self)) (non_subscribe_request_timeout (config self))
    = Returns res ->
  (status_code res = 200 -> request_sync self options = Returns res)
  /\ (status_code res <> 200 ->
      exists kind,
        request_sync self options
        = Raises (Exc_PubNub
                    (mkPubNubException kind
                       (match text res with Some t => t | None => "N/A"%string end)
                       (Some (status_code res))))
        /\ (500 <= status_code res -> kind = PNERR_SERVER_ERROR)
        /\ (status_code res < 500 -> kind = PNERR_CLIENT_ERROR)).
Proof.
  intros Hres. unfold request_sync. rewrite Hres. unfold Requests.codes_ok.
  split.
  - intros ->. reflexivity.
  - intros Hne. apply Z.eqb_neq in Hne. rewrite Hne. simpl.
    eexists. split; [reflexivity|].
    split; intros Hs.
    + apply Z.leb_le in Hs. rewrite Hs. reflexivity.
    + apply Z.leb_gt in Hs. rewrite Hs. reflexivity.
Qed.

(** C3, on the scenario of the spec: status 404 with body Not Found. *)
Lemma request_sync_raises_unless_200_witness :
  pn_request (session (answering not_found_response))
    (scheme_and_host (config (answering not_found_response)))
    (headers (answering not_found_response)) publish_options
    (connect_timeout (config (answering not_found_response)))
    (non_subscribe_request_timeout (config (answering not_found_response)))
    = Returns not_found_response
  /\ request_sync (answering not_found_response) publish_options
     = Raises (Exc_PubNub (mkPubNubException PNERR_CLIENT_ERROR "Not Found" (Some 404))).
Proof.
  split; [reflexivity|].
  destruct (request_sync_raises_unless_200 (answering not_found_response) publish_options
              not_found_response eq_refl) as [_ Hne].
  destruct (Hne ltac:(discriminate)) as (kind & Heq & _ & Hclient).
  rewrite Heq, (Hclient ltac:(reflexivity)). reflexivity.
Defined.

(** ** [pn_request] and the transport's failures *)



(** ** The asynchronous path *)

Section AsyncProperties.

Context (urlparse : string -> ParseResult).
Context (parse_qs : string -> gmap string (list string)).
Context (self : PubNub) (name : string) (options : RequestOptions).
Context (callback : Callable).

Abbreviation the_client := (client_of urlparse parse_qs self options callback).
Abbreviation the_round_trip :=
  (client_request_outcome (client_of urlparse parse_qs self options callback)).
Abbreviation started flag :=
  (snd (request_async urlparse parse_qs self name options callback flag)).

Lemma reachable_call_state flag sched :
  call_state urlparse parse_qs self options callback (exec the_client sched (started flag)).
Proof. apply call_state_exec, call_state_initial. Qed.

Lemma started_thread flag : thread (call (objects (started flag))) <> None.
Proof. discriminate. Qed.

(** The part of C1 that the code keeps: a response that comes back after
    the event was set, the unit not having tested the event yet, is never
    delivered, and the executed flag stays false, whatever happens next. *)
Lemma cancelled_response_never_delivered (s : system) (res : Response) (sched : list action) :
  call_state urlparse parse_qs self options callback s ->
  before_test urlparse parse_qs self options callback (unit_at s) ->
  event_flag (objects s) = true ->
  the_round_trip = Returns res ->
  delivered (objects (join the_client (exec the_client sched s))) = []
  /\ is_executed (call (objects (join the_client (exec the_client sched s)))) = false.
Proof.
  intros Hs Hbt Hf Hres.
  set (P := fun s : system =>
              event_flag (objects s) = true /\ pristine (objects s)
              /\ (unit_at s = Requesting
                  \/ unit_at s = Running (run_from the_client (Returns res))
                  \/ unit_at s = Terminated (Returns tt))).
  assert (HP0 : P s).
  { unfold before_test in Hbt. rewrite Hres in Hbt.
    destruct Hs as [w Hw|w res' Hres' Hw|w0 w u Hw0 Hth Hce Hpt Hx Hu Hv];
      cbn [unit_at objects] in *.
    - repeat split; try apply Hw; auto.
    - repeat split; try apply Hw; auto. destruct Hbt as [Hbt|Hbt]; auto.
    - exfalso. destruct Hbt as [->| ->]; [congruence|].
      cbn [rest_of] in Hpt. inversion Hpt. }
  assert (Hstep : forall s a, P s -> P (perform the_client s a)).
  { intros s1 a (Hf1 & Hp1 & Hu1). destruct a; cbn [perform].
    - unfold caller_cancel; cbn [unit_at objects]. split; [apply cancel_keeps_flag, Hf1|].
      split; [apply pristine_cancel, Hp1 | exact Hu1].
    - unfold unit_step. destruct Hu1 as [Hu|[Hu|Hu]]; rewrite Hu.
      + rewrite Hres. cbn [unit_at objects]. repeat split; try apply Hp1; auto.
      + rewrite step_run_response, Hf1. cbn [unit_at objects position].
        repeat split; try apply Hp1; auto.
      + repeat split; try apply Hp1; auto. }
  assert (Hexec : forall sched s, P s -> P (exec the_client sched s)).
  { intros sched'. induction sched' as [|a sched' IH]; intros s1 H1; [exact H1|].
    rewrite exec_cons. apply IH, Hstep, H1. }
  destruct (Hexec sched s HP0) as (Hf1 & Hp1 & Hu1).
  unfold join. destruct (thread _); [|split; apply Hp1].
  destruct Hu1 as [Hu|[Hu|Hu]]; rewrite Hu.
  - rewrite Hres, finish_run_cancelled by exact Hf1. split; apply Hp1.
  - rewrite finish_run_cancelled by exact Hf1. split; apply Hp1.
  - split; apply Hp1.
Qed.

(** What the callback gets first on a call that received a response whose
    body is JSON is what [success_callback] built from that response. *)
Lemma response_delivery (res : Response) (body : json) :
  the_round_trip = Returns res ->
  json_body res = Returns body ->
  exists args,
    describes_response urlparse parse_qs res body args
    /\ delivered_first urlparse parse_qs self options callback name args.
Proof.
  intros Hres Hj.
  destruct (finish_after_test_json urlparse parse_qs callback res body Hj)
    as (args & Hdesc & Hfin).
  exists args. split; [exact Hdesc|]. split.
  - intros flag sched first later Hd.
    destruct (call_state_run urlparse parse_qs self options callback _
                (reachable_call_state flag sched))
      as (w0 & (Hd0 & _) & (more & Hmore) & _).
    rewrite Hd, Hres in Hmore.
    destruct (event_flag w0) eqn:Hf.
    + rewrite finish_run_cancelled in Hmore by exact Hf. cbn [snd] in Hmore.
      rewrite Hd0 in Hmore. discriminate.
    + rewrite finish_run_live, Hfin, Hd0 in Hmore by exact Hf.
      destruct (callback [] args) as [[]|[pe|cls pe|cls msg]];
        try rewrite delivery_outcome in Hmore;
        try destruct (callback _ (error_args pe)) as [[]|e'];
        cbn in Hmore; rewrite Hd0 in Hmore; cbn in Hmore; congruence.
  - intros sched Hc.
    rewrite join_uncancelled by (exact Hc || apply started_thread).
    unfold join. cbn [request_async snd objects unit_at call thread].
    change (client_request_outcome _) with the_round_trip. rewrite Hres.
    rewrite finish_run_live, Hfin by reflexivity. cbn [delivered].
    destruct (callback [] args) as [[]|[pe|cls pe|cls msg]] eqn:Hcb;
      try rewrite delivery_outcome;
      try destruct (callback _ (error_args pe)) as [[]|e'];
      cbn; eexists; (split; [reflexivity|]); intros [=]; auto.
Qed.

(** C2, amended.  Take an asynchronous call that received a response whose
    body [res.json()] decodes.  What the callback gets first carries the
    access-denied category exactly when the status is 403, the bad-request
    category exactly when it is 400, and the unknown category exactly for
    every other status.  It is what the callback gets first in every state
    the call can reach; a call that is not cancelled does deliver it; and
    when the callback returns from it, nothing else is delivered. *)
Theorem async_status_category (res : Response) (body : json) :
  the_round_trip = Returns res ->
  json_body res = Returns body ->
  exists args,
    delivered_first urlparse parse_qs self options callback name args
    /\ (cb_category args = PNAccessDeniedCategory <-> status_code res = 403)
    /\ (cb_category args = PNBadRequestCategory <-> status_code res = 400)
    /\ (cb_category args = PNUnknownCategory <->
        status_code res <> 403 /\ status_code res <> 400).
Proof.
  intros Hres Hj.
  destruct (response_delivery res body Hres Hj) as (args & (_ & Hcat & _) & Hfirst).
  exists args. split; [exact Hfirst|].
  rewrite Hcat.
  destruct (status_code res =? 400) eqn:H400;
    [apply Z.eqb_eq in H400 | apply Z.eqb_neq in H400].
  { repeat split; intros; try discriminate; lia. }
  destruct (status_code res =? 403) eqn:H403;
    [apply Z.eqb_eq in H403 | apply Z.eqb_neq in H403].
  { repeat split; intros; try discriminate; lia. }
  repeat split; intros; try discriminate; try lia.
Qed.

(** C5, amended.  When [pn_request] fails with a [PubNubException], then,
    whatever the schedule and whether or not the call was cancelled, once
    the background unit is over the callback has been invoked once, with no
    body, no response information and the exception itself, and with the
    unexpected-disconnect category for the connection error, the timeout
    category for the client timeout and the bad-request category for every
    other kind.  When the callback returns, [error_callback] sets the
    executed flag right after the invocation, and the unit ends. *)
Theorem transport_failure_delivery (flag : bool) (sched : list action)
    (pe : PubNubException) :
  the_round_trip = Raises (Exc_PubNub pe) ->
  exists category,
    let args := mkCallbackArgs category None None (Some pe) in
    let joined := join the_client (exec the_client sched (started flag)) in
    delivered (objects joined) = [args]
    /\ (callback [] args = Returns tt ->
        is_executed (call (objects joined)) = true
        /\ unit_at joined = Terminated (Returns tt))
    /\ error_callback callback (Exc_PubNub pe) = (invoke callback args ;;; executed_cb)
    /\ (_pn_error pe = PNERR_CONNECTION_ERROR -> category = PNUnexpectedDisconnectCategory)
    /\ (_pn_error pe = PNERR_CLIENT_TIMEOUT -> category = PNTimeoutCategory)
    /\ (_pn_error pe <> PNERR_CONNECTION_ERROR -> _pn_error pe <> PNERR_CLIENT_TIMEOUT ->
        category = PNBadRequestCategory).
Proof.
  intros Hfail.
  destruct (join_terminated urlparse parse_qs self options callback _
              (reachable_call_state flag sched))
    as (w0 & (Hd0 & _) & Hu & Hd & He).
  rewrite Hfail, finish_run_PubNub, delivery_outcome, Hd0 in Hu, Hd, He.
  exists (cb_category (error_args pe)). cbv zeta.
  change (mkCallbackArgs (cb_category (error_args pe)) None None (Some pe))
    with (error_args pe).
  split.
  { rewrite Hd. destruct (callback [] (error_args pe)) as [[]|e]; cbn; rewrite Hd0; reflexivity. }
  split.
  { intros Hcb. rewrite Hcb in Hu, He. split; [rewrite He; reflexivity | exact Hu]. }
  split; [reflexivity|].
  unfold error_args; cbn [cb_category].
  repeat split.
  - intros ->. reflexivity.
  - intros ->. reflexivity.
  - intros H1 H2. destruct (decide _); [contradiction|].
    destruct (decide _); [contradiction|]. reflexivity.
Qed.

(** C6, amended.  Take an asynchronous call that received a response whose
    body [res.json()] decodes.  What the callback gets first carries a
    response information read off the URL of the response, [res.url]: the
    host of that URL, a TLS flag that is true exactly when its scheme is
    https, and the first values of its uuid and auth_key query parameters,
    each absent when the parameter is missing or has no value.  It is what
    the callback gets first in every state the call can reach, and a call
    that is not cancelled does deliver it. *)
Theorem response_info_from_response_url (res : Response) (body : json) :
  the_round_trip = Returns res ->
  json_body res = Returns body ->
  exists args ri,
    delivered_first urlparse parse_qs self options callback name args
    /\ cb_response_info args = Some ri
    /\ origin ri = hostname (urlparse (url res))
    /\ (tls_enabled ri = true <-> scheme (urlparse (url res)) = "https"%string)
    /\ uuid ri =
         match parse_qs (query (urlparse (url res))) !! "uuid"%string with
         | Some (v :: _) => Some v
         | Some [] | None => None
         end
    /\ auth_key ri =
         match parse_qs (query (urlparse (url res))) !! "auth_key"%string with
         | Some (v :: _) => Some v
         | Some [] | None => None
         end.
Proof.
  intros Hres Hj.
  destruct (response_delivery res body Hres Hj)
    as (args & (_ & _ & (ri & Hri & _ & Htls & Horigin & Huuid & Hauth & _) & _) & Hfirst).
  exists args, ri. split; [exact Hfirst|]. split; [exact Hri|]. split; [exact Horigin|].
  split.
  { rewrite Htls. rewrite bool_decide_eq_true. split; congruence. }
  split.
  { rewrite Huuid. destruct (parse_qs _ !! _) as [[|v vs]|]; reflexivity. }
  rewrite Hauth. destruct (parse_qs _ !! _) as [[|v vs]|]; reflexivity.
Qed.

(** C8.  An exception whose type is not [PubNubException] is raised again
    by [error_callback], leaves [run] as it is, and nothing is delivered
    for it: when it comes out of [pn_request] the world is as it was, and
    when [success_callback] raises it while processing a response, [run]
    ends as [success_callback] ended, the handler adding no invocation.
    In that case either nothing was invoked ([res.json()] raised), or the
    exception was raised by the callback itself during its one
    invocation. *)
Theorem non_taxonomy_error_propagates (e : exception) (w : world) :
  type_is_PubNubException e = false ->
  finish (error_callback callback e) w = (Raises e, w)
  /\ finish (run_from the_client (Raises e)) w = (Raises e, w)
  /\ (forall res w',
        event_flag w = false ->
        finish (success_callback urlparse parse_qs callback res) w = (Raises e, w') ->
        finish (run_from the_client (Returns res)) w = (Raises e, w')
        /\ (w' = w
            \/ exists args, w' = with_invocation args w
                            /\ callback (delivered w) args = Raises e)).
Proof.
  intros Hty. split; [apply finish_error_callback_reraises, Hty|].
  split; [apply finish_run_other, Hty|].
  intros res w' Hf Hraise.
  rewrite finish_run_live, finish_try_except, Hraise by exact Hf.
  split.
  { destruct (isinstance_PubNubException e); [|reflexivity].
    apply finish_error_callback_reraises, Hty. }
  destruct (res_json_cases res) as [(body & Hj & _)|(e' & Hj & _)].
  - destruct (success_callback_json urlparse parse_qs callback res body Hj) as (args & Heq & _).
    rewrite Heq in Hraise.
    change (finish (invoke callback args;;; executed_cb) w)
      with (delivery callback args w) in Hraise.
    rewrite delivery_outcome in Hraise.
    destruct (callback (delivered w) args) as [[]|e''] eqn:Hcb; [discriminate|].
    injection Hraise as -> <-. right. eauto.
  - rewrite (success_callback_not_json urlparse parse_qs callback res e' Hj) in Hraise.
    injection Hraise as _ <-. left. reflexivity.
Qed.

(** C9, amended.  [cancel] is idempotent: a second call returns or raises
    as the first did and leaves every object, the event and the executed
    flag among them, as the first left it; [cancel] never changes the
    executed flag.  Once the executed flag of a call is true, a further
    [cancel] still sets the event and [is_canceled], and changes neither
    what was delivered, nor the executed flag, nor the state of the unit,
    now or after any later schedule. *)
Theorem cancel_idempotent :
  (forall w, cancel (snd (cancel w)) = cancel w)
  /\ (forall s, caller_cancel (caller_cancel s) = caller_cancel s)
  /\ (forall w, is_executed (call (snd (cancel w))) = is_executed (call w))
  /\ (forall flag sched later,
        is_executed (call (objects (exec the_client sched (started flag)))) = true ->
        let s := exec the_client sched (started flag) in
        event_flag (objects (caller_cancel s)) = true
        /\ is_canceled (call (objects (caller_cancel s))) = true
        /\ unit_at (exec the_client later (caller_cancel s)) = unit_at (exec the_client later s)
        /\ delivered (objects (exec the_client later (caller_cancel s)))
           = delivered (objects (exec the_client later s))
        /\ is_executed (call (objects (exec the_client later (caller_cancel s)))) = true
        /\ is_executed (call (objects (exec the_client later s))) = true).
Proof.
  assert (Hidem : forall w, cancel (snd (cancel w)) = cancel w).
  { intros w. unfold cancel.
    destruct (cancellation_event (call w)) as [[]|] eqn:Hc; simpl; rewrite ?Hc; reflexivity. }
  split; [exact Hidem|].
  split.
  { intros s. unfold caller_cancel; simpl. rewrite Hidem. reflexivity. }
  split; [apply cancel_is_executed|].
  intros flag sched later Hx s.
  pose proof (reachable_call_state flag sched) as Hs. fold s in Hs.
  destruct (call_state_handle urlparse parse_qs self options callback s Hs) as [_ Hce].
  destruct (executed_terminated urlparse parse_qs self options callback s Hs Hx) as [o Ho].
  destruct (terminated_exec urlparse parse_qs self options callback later s o Ho)
    as (Hu1 & Hd1 & He1).
  destruct (terminated_perform urlparse parse_qs self options callback s DoCancel o Ho)
    as (Hu2 & Hd2 & He2).
  simpl in Hu2, Hd2, He2.
  destruct (terminated_exec urlparse parse_qs self options callback later (caller_cancel s) o Hu2)
    as (Hu3 & Hd3 & He3).
  change (objects (caller_cancel s)) with (snd (cancel (objects s))) in *.
  fold s in Hx.
  split; [apply cancel_sets_flag, Hce|].
  split; [unfold cancel; rewrite Hce; reflexivity|].
  repeat split; congruence.
Qed.

End AsyncProperties.

(** ** The properties on the scenarios *)

(** C1, the code against the claim.  The caller cancels while the
    background unit is still inside the network round trip, and the round
    trip then fails with a refused connection: after [join] the callback
    has been invoked, with the unexpected-disconnect category and the
    error, and the executed flag is true when the callback returned.
    [run] tests the event on the path of a response only. *)
Theorem cancelled_call_failure_still_delivered (callback : Callable) :
  let client := example_client (failing connection_refused) callback in
  let cancelled :=
    exec client [DoCancel] (example_start (failing connection_refused) callback false) in
  let joined := join client cancelled in
  unit_at cancelled = Requesting
  /\ event_flag (objects cancelled) = true
  /\ delivered (objects joined) = [refused_args]
  /\ is_executed (call (objects joined))
     = match callback [] refused_args with Returns _ => true | Raises _ => false end
  /\ is_executed
       (call (objects (join (example_client (failing connection_refused) returning)
                         (exec (example_client (failing connection_refused) returning)
                            [DoCancel]
                            (example_start (failing connection_refused) returning false)))))
     = true.
Proof.
  cbv zeta. split; [reflexivity|]. split; [reflexivity|].
  vm_compute. destruct (callback _ _) as [[]|e]; repeat split.
Qed.

(** The same cancelled call when a response comes back instead: nothing is
    delivered. *)
Lemma cancelled_call_response_dropped (callback : Callable) :
  let client := example_client (answering sent_response) callback in
  let cancelled :=
    exec client [DoCancel] (example_start (answering sent_response) callback false) in
  let joined := join client cancelled in
  delivered (objects joined) = [] /\ is_executed (call (objects joined)) = false.
Proof. repeat split. Qed.

(** C2, counterexample.  Two calls on which the category of the claim is
    not what the callback gets.

    The first is answered with status 403 and cancelled after the response
    came back, before [run] tests the event: the response is dropped, and
    no category is delivered at all.

    The second is answered with status 200 and a JSON body, and its
    callback raises a [PubNubException] of its own.  The exception is
    raised inside the [try] of [run], whose handler hands it to
    [error_callback]: the callback is invoked a second time, with the
    bad-request category, on a call whose response has status 200. *)
Lemma status_category_lost_or_replaced :
  let client1 := example_client (answering forbidden_response) returning in
  let joined1 :=
    join client1
      (exec client1 [UnitStep; DoCancel]
         (example_start (answering forbidden_response) returning false)) in
  let callback2 := raising (Exc_PubNub callback_error) in
  let client2 := example_client (answering sent_response) callback2 in
  let joined2 := join client2 (example_start (answering sent_response) callback2 false) in
  (client_request_outcome client1 = Returns forbidden_response
   /\ status_code forbidden_response = 403
   /\ delivered (objects joined1) = [])
  /\ (client_request_outcome client2 = Returns sent_response
      /\ status_code sent_response = 200
      /\ delivered (objects joined2) = [sent_args; callback_error_args]
      /\ cb_category callback_error_args = PNBadRequestCategory).
Proof. repeat split. Qed.

(** C2, on a call answered with status 403, with a callback that returns:
    the callback is invoked once, with the access-denied category. *)
Lemma async_status_category_witness :
  client_request_outcome (example_client (answering forbidden_response) returning)
    = Returns forbidden_response
  /\ json_body forbidden_response = Returns (JObject [])
  /\ exists args,
       delivered (objects (join (example_client (answering forbidden_response) returning)
                             (exec (example_client (answering forbidden_response) returning)
                                [UnitStep]
                                (example_start (answering forbidden_response) returning
                                   false))))
       = [args]
       /\ cb_category args = PNAccessDeniedCategory.
Proof.
  split; [reflexivity|]. split; [reflexivity|].
  destruct (async_status_category example_urlparse example_parse_qs
              (answering forbidden_response) "Publish" publish_options returning
              forbidden_response (JObject []) eq_refl eq_refl)
    as (args & (_ & Hlive) & Hdenied & _).
  exists args.
  destruct (Hlive [UnitStep] eq_refl) as (later & Hd & Honce).
  destruct (Honce eq_refl) as [-> _].
  split; [exact Hd | apply Hdenied; reflexivity].
Defined.

(** C5, counterexample.  The transport refuses the connection and the
    callback raises: it has been invoked, with the unexpected-disconnect
    category and the error, but [executed_cb] is not reached, the executed
    flag stays false and the exception ends the unit. *)
Lemma raising_callback_leaves_executed_false :
  let callback := raising (Exc_Other "KeyError" "'channel'") in
  let client := example_client (failing connection_refused) callback in
  let joined := join client (example_start (failing connection_refused) callback false) in
  client_request_outcome client = Raises (Exc_PubNub refused_error)
  /\ delivered (objects joined) = [refused_args]
  /\ is_executed (call (objects joined)) = false
  /\ unit_at joined = Terminated (Raises (Exc_Other "KeyError" "'channel'")).
Proof. repeat split. Qed.

(** C5, on the scenario of the spec: the transport refuses the connection,
    and the callback returns. *)
Lemma transport_failure_delivery_witness :
  client_request_outcome (example_client (failing connection_refused) returning)
    = Raises (Exc_PubNub refused_error)
  /\ delivered (objects (join (example_client (failing connection_refused) returning)
                           (exec (example_client (failing connection_refused) returning) []
                              (example_start (failing connection_refused) returning false))))
     = [refused_args]
  /\ is_executed (call (objects (join (example_client (failing connection_refused) returning)
                                   (exec (example_client (failing connection_refused) returning)
                                      []
                                      (example_start (failing connection_refused) returning
                                         false)))))
     = true.
Proof.
  split; [reflexivity|].
  destruct (transport_failure_delivery example_urlparse example_parse_qs
              (failing connection_refused) "Publish" publish_options returning false []
              refused_error eq_refl)
    as (category & Hd & Hret & _ & Hconn & _).
  cbv zeta in Hd, Hret.
  rewrite (Hconn eq_refl) in Hd, Hret. split; [exact Hd | exact (proj1 (Hret eq_refl))].
Defined.

(** C6, counterexample.  Two calls on which the response information of
    the claim is not what the callback gets.

    On the first the request goes out to ps.pndsn.com with query uuid=abc
    and auth_key=k1, and [requests] follows a redirect: the response comes
    from [moved_url], which has no query.  The response information is
    read off the URL of the response: the origin is the host the redirect
    led to, and uuid and auth_key are absent, though the outgoing request
    carried both.

    The second is answered from the URL the request went to, and its
    callback raises a [PubNubException] of its own: [error_callback]
    invokes it a second time, with no response information at all. *)
Lemma response_info_not_from_outgoing_request :
  let sent_to :=
    request_kwargs (scheme_and_host example_config) [] publish_options
      (connect_timeout example_config) (non_subscribe_request_timeout example_config) in
  let client := example_client (answering moved_response) returning in
  let joined := join client (example_start (answering moved_response) returning false) in
  let callback2 := raising (Exc_PubNub callback_error) in
  let client2 := example_client (answering sent_response) callback2 in
  let joined2 := join client2 (example_start (answering sent_response) callback2 false) in
  (arg_url sent_to = "https://ps.pndsn.com/publish/x"%string
   /\ example_parse_qs (arg_params sent_to) !! "uuid"%string = Some ["abc"%string]
   /\ example_parse_qs (arg_params sent_to) !! "auth_key"%string = Some ["k1"%string]
   /\ session (answering moved_response) sent_to = Returns moved_response
   /\ delivered (objects joined) = [moved_args]
   /\ (cb_response_info moved_args ≫= uuid) = None
   /\ (cb_response_info moved_args ≫= auth_key) = None
   /\ (cb_response_info moved_args ≫= origin) = Some "eu.pndsn.com"%string)
  /\ (client_request_outcome client2 = Returns sent_response
      /\ delivered (objects joined2) = [sent_args; callback_error_args]
      /\ cb_response_info callback_error_args = None).
Proof. repeat split. Qed.

(** C6, on the scenario of the spec: status 200, body [1,"Sent"], and a
    response that comes from the URL the request went to, with query
    uuid=abc and auth_key=k1. *)
Lemma response_info_from_response_url_witness :
  client_request_outcome (example_client (answering sent_response) returning)
    = Returns sent_response
  /\ json_body sent_response = Returns (JArray [JInt 1; JString "Sent"])
  /\ exists args ri,
       delivered (objects (join (example_client (answering sent_response) returning)
                             (exec (example_client (answering sent_response) returning) []
                                (example_start (answering sent_response) returning false))))
       = [args]
       /\ cb_response_info args = Some ri
       /\ origin ri = Some "ps.pndsn.com"%string
       /\ tls_enabled ri = true
       /\ uuid ri = Some "abc"%string
       /\ auth_key ri = Some "k1"%string.
Proof.
  split; [reflexivity|]. split; [reflexivity|].
  destruct (response_info_from_response_url example_urlparse example_parse_qs
              (answering sent_response) "Publish" publish_options returning
              sent_response (JArray [JInt 1; JString "Sent"]) eq_refl eq_refl)
    as (args & ri & (_ & Hlive) & Hri & Horigin & Htls & Huuid & Hauth).
  exists args, ri.
  destruct (Hlive [] eq_refl) as (later & Hd & Honce).
  destruct (Honce eq_refl) as [-> _].
  split; [exact Hd|]. split; [exact Hri|]. split; [exact Horigin|].
  split; [apply Htls; reflexivity|].
  split; [exact Huuid | exact Hauth].
Defined.

(** C7, the code against the claim.  Neither call is ever cancelled.

    The first is answered, whatever its callback, with status 502 and an
    HTML page as body.  [success_callback] has built the error to deliver
    and calls the callback with [res.json()] among the arguments, which
    raises: the exception leaves [run], the callback is not invoked at all
    and the executed flag stays false.  [request_sync] raises that error
    for the same response.

    The second is answered with status 200 and a JSON body, and its
    callback raises a [PubNubException] the first time it is invoked.  The
    callback is invoked on the success path and then, by the handler of
    [run], on the error path: twice. *)
Theorem callback_not_exactly_once (callback : Callable) :
  let client := example_client (answering bad_gateway_response) callback in
  let joined := join client (example_start (answering bad_gateway_response) callback false) in
  let callback2 := raising_first (Exc_PubNub callback_error) in
  let client2 := example_client (answering sent_response) callback2 in
  let joined2 := join client2 (example_start (answering sent_response) callback2 false) in
  (event_flag (objects joined) = false
   /\ is_canceled (call (objects joined)) = false
   /\ unit_at joined = Terminated (Raises json_decode_error)
   /\ delivered (objects joined) = []
   /\ is_executed (call (objects joined)) = false)
  /\ request_sync (answering bad_gateway_response) publish_options
     = Raises (Exc_PubNub (mkPubNubException PNERR_SERVER_ERROR
                             "<html>502 Bad Gateway</html>" (Some 502)))
  /\ (event_flag (objects joined2) = false
      /\ is_canceled (call (objects joined2)) = false
      /\ delivered (objects joined2) = [sent_args; callback_error_args]
      /\ is_executed (call (objects joined2)) = true).
Proof. repeat split. Qed.

(** C8, on what [res.json()] raises for an HTML body. *)
Lemma non_taxonomy_error_propagates_witness :
  type_is_PubNubException json_decode_error = false
  /\ finish (error_callback returning json_decode_error)
       (objects (example_start (answering bad_gateway_response) returning false))
     = (Raises json_decode_error,
        objects (example_start (answering bad_gateway_response) returning false))
  /\ finish (run_from (example_client (answering bad_gateway_response) returning)
               (Returns bad_gateway_response))
       (objects (example_start (answering bad_gateway_response) returning false))
     = (Raises json_decode_error,
        objects (example_start (answering bad_gateway_response) returning false)).
Proof.
  split; [reflexivity|].
  destruct (non_taxonomy_error_propagates example_urlparse example_parse_qs
              (answering bad_gateway_response) publish_options returning json_decode_error
              (objects (example_start (answering bad_gateway_response) returning false))
              eq_refl)
    as (Herr & _ & Hsucc).
  split; [exact Herr|].
  exact (proj1 (Hsucc bad_gateway_response _ eq_refl eq_refl)).
Defined.

(** C9, counterexample.  A call has delivered its response and its
    executed flag is true; the event is not set and [is_canceled] is
    false.  A [cancel] now sets both: the caller can see that it was
    called. *)
Lemma cancel_after_executed_is_observable :
  let client := example_client (answering sent_response) returning in
  let done := join client (example_start (answering sent_response) returning false) in
  is_executed (call (objects done)) = true
  /\ event_flag (objects done) = false
  /\ is_canceled (call (objects done)) = false
  /\ event_flag (objects (caller_cancel done)) = true
  /\ is_canceled (call (objects (caller_cancel done))) = true.
Proof. repeat split. Qed.

(** C9, on a call that has delivered its response: a cancel after that
    sets the event, and changes nothing of what a later move of the unit
    leaves delivered. *)
Lemma cancel_idempotent_witness :
  is_executed (call (objects (exec (example_client (answering sent_response) returning)
                                [UnitStep; UnitStep; UnitStep; UnitStep]
                                (example_start (answering sent_response) returning false))))
  = true
  /\ event_flag
       (objects (caller_cancel
                   (exec (example_client (answering sent_response) returning)
                      [UnitStep; UnitStep; UnitStep; UnitStep]
                      (example_start (answering sent_response) returning false)))) = true
  /\ delivered (objects (exec (example_client (answering sent_response) returning) [UnitStep]
                           (caller_cancel
                              (exec (example_client (answering sent_response) returning)
                                 [UnitStep; UnitStep; UnitStep; UnitStep]
                                 (example_start (answering sent_response) returning false)))))
     = delivered (objects (exec (example_client (answering sent_response) returning) [UnitStep]
                             (exec (example_client (answering sent_response) returning)
                                [UnitStep; UnitStep; UnitStep; UnitStep]
                                (example_start (answering sent_response) returning false)))).
Proof.
  split; [reflexivity|].
  destruct (cancel_idempotent example_urlparse example_parse_qs
              (answering sent_response) "Publish" publish_options returning)
    as (_ & _ & _ & Hlater).
  destruct (Hlater false [UnitStep; UnitStep; UnitStep; UnitStep] [UnitStep] eq_refl)
    as (Hflag & _ & _ & Hd & _).
  split; [exact Hflag | exact Hd].
Defined.

(** ** Encryption followed by decryption *)

Module CryptoFacts.

Import Crypto.
Local Open Scope N_scope.

Ltac arith := zify; Z.to_euclidean_division_equations; lia.

(** Decide the comparisons of the goal one after the other, closing the
    cases that arithmetic excludes. *)
Ltac decide_comparisons :=
  repeat match goal with
    | |- context [?a <? ?b] =>
        destruct (N.ltb_spec a b); try (exfalso; arith)
    | |- context [?a <=? ?b] =>
        destruct (N.leb_spec a b); try (exfalso; arith)
    end.

Lemma bind_returns {A B} (a : A) (k : A -> outcome error B) :
  (Returns a ≫= k) = k a.
Proof. reflexivity. Qed.

Lemma decode_encode_char (c : N) (bs : bytes) (t : bytes) :
  encode_char c = Some bs ->
  decode_utf8 (bs ++ t) = (s ← decode_utf8 t; mret (c :: s)).
Proof.
  unfold encode_char.
  destruct (N.ltb_spec c 0x80) as [H1|H1].
  { intros [= <-]. cbn [app decode_utf8]. decide_comparisons. reflexivity. }
  destruct (N.ltb_spec c 0x800) as [H2|H2].
  { intros [= <-]. cbn [app decode_utf8]. unfold is_continuation.
    replace ((0xC0 + c / 64 - 0xC0) * 64 + (0x80 + c mod 64 - 0x80)) with c by arith.
    decide_comparisons. reflexivity. }
  destruct (N.ltb_spec c 0x10000) as [H3|H3].
  { destruct (is_surrogate c) eqn:Hs; [discriminate|].
    intros [= <-]. cbn [app decode_utf8]. cbv zeta.
    replace ((0xE0 + c / 4096 - 0xE0) * 4096 + (0x80 + c / 64 mod 64 - 0x80) * 64
             + (0x80 + c mod 64 - 0x80)) with c by arith.
    rewrite Hs. unfold is_continuation.
    decide_comparisons. reflexivity. }
  destruct (N.ltb_spec c 0x110000) as [H4|H4]; [|discriminate].
  intros [= <-]. cbn [app decode_utf8]. cbv zeta.
  replace ((0xF0 + c / 262144 - 0xF0) * 262144 + (0x80 + c / 4096 mod 64 - 0x80) * 4096
           + (0x80 + c / 64 mod 64 - 0x80) * 64 + (0x80 + c mod 64 - 0x80)) with c by arith.
  unfold is_continuation.
  decide_comparisons. reflexivity.
Qed.

Lemma decode_encode_app (s : unicode) (b t : bytes) :
  encode_utf8 s = Returns b ->
  decode_utf8 (b ++ t) = (u ← decode_utf8 t; mret (s ++ u)).
Proof.
  revert b. induction s as [|c s IH]; intros b.
  - intros [= <-]. simpl. destruct (decode_utf8 t); reflexivity.
  - cbn [encode_utf8].
    destruct (encode_char c) as [bc|] eqn:Hc; [|discriminate].
    destruct (encode_utf8 s) as [bs|] eqn:Hs; [|discriminate].
    intros [= <-]. rewrite <- app_assoc.
    rewrite (decode_encode_char c bc _ Hc), (IH bs eq_refl).
    destruct (decode_utf8 t); reflexivity.
Qed.

Lemma decode_encode (s : unicode) (b : bytes) :
  encode_utf8 s = Returns b -> decode_utf8 b = Returns s.
Proof.
  intros H. rewrite <- (app_nil_r b), (decode_encode_app s b [] H).
  simpl. rewrite app_nil_r. reflexivity.
Qed.

(** Encodable text always encodes. *)
Lemma encodable_encodes (s : unicode) :
  encodable s -> exists b, encode_utf8 s = Returns b.
Proof.
  induction 1 as [|c s Hc _ [bs IH]]; [exists []; reflexivity|].
  cbn [encode_utf8]. rewrite IH.
  unfold is_scalar in Hc. apply andb_true_iff in Hc as [Hlt Hs].
  apply negb_true_iff in Hs. apply N.ltb_lt in Hlt.
  unfold encode_char. rewrite Hs.
  decide_comparisons; eexists; reflexivity.
Qed.

(** ASCII text and its encoding are the same numbers. *)
Lemma encode_ascii (s : unicode) :
  Forall (fun c => c < 128) s -> encode_utf8 s = Returns s.
Proof.
  induction 1 as [|c s Hc _ IH]; [reflexivity|].
  cbn [encode_utf8]. rewrite IH. unfold encode_char.
  decide_comparisons. reflexivity.
Qed.

Lemma decode_ascii (b : bytes) :
  Forall (fun c => c < 128) b -> decode_utf8 b = Returns b.
Proof. intros H. apply decode_encode, encode_ascii, H. Qed.

(** [pad] for a block size from 1 to 127: it appends between 1 and
    [block_size] bytes, each holding their number, and the result fills
    whole blocks. *)
Lemma pad_blocks (msg : bytes) (block_size : N) :
  1 <= block_size <= 127 ->
  let padding := block_size - len msg mod block_size in
  pad msg (Z.of_N block_size) = Returns (msg ++ replicate (N.to_nat padding) padding)
  /\ 1 <= padding <= block_size
  /\ len (msg ++ replicate (N.to_nat padding) padding) mod block_size = 0.
Proof.
  intros Hbs padding.
  pose proof (N.div_mod (len msg) block_size ltac:(lia)) as Hdiv.
  assert (Hr : len msg mod block_size < block_size) by (apply N.mod_lt; lia).
  assert (Hz : (Z.of_N block_size - Z.of_N (len msg) mod Z.of_N block_size)%Z
               = Z.of_N padding).
  { unfold padding. rewrite <- N2Z.inj_mod. lia. }
  unfold padding in *. clear padding.
  remember (len msg mod block_size) as r eqn:Er.
  split; [|split; [lia|]].
  - unfold pad, py_mod.
    destruct (Z.eqb_spec (Z.of_N block_size) 0) as [?|_]; [lia|].
    cbn [mbind outcome_bind]. rewrite Hz. unfold chr, str_times.
    destruct (Z.ltb_spec (Z.of_N (block_size - r)) (-2147483648)); [lia|].
    destruct (Z.ltb_spec 2147483647 (Z.of_N (block_size - r))); [lia|].
    destruct (Z.leb_spec 0 (Z.of_N (block_size - r))); [|lia].
    destruct (Z.ltb_spec (Z.of_N (block_size - r)) 0x110000); [|lia].
    cbn [orb andb mbind outcome_bind].
    rewrite N2Z.id.
    replace (Z.to_nat (Z.of_N (block_size - r))) with (N.to_nat (block_size - r)) by lia.
    rewrite encode_ascii; [reflexivity|].
    apply Forall_replicate. lia.
  - unfold len in *. rewrite length_app, length_replicate.
    replace (N.of_nat (length msg + N.to_nat (block_size - r)))
      with ((N.of_nat (length msg) / block_size + 1) * block_size) by lia.
    apply N.Div0.mod_mul.
Qed.


(** [depad] takes away what [pad] appended. *)
Lemma depad_padded (msg : unicode) (padding : N) :
  1 <= padding ->
  depad (msg ++ replicate (N.to_nat padding) padding) = Returns msg.
Proof.
  intros Hp. unfold depad.
  destruct (N.to_nat padding) as [|k] eqn:Hk; [lia|].
  rewrite replicate_S_end, app_assoc, last_snoc.
  unfold slice_0_neg, ord.
  destruct (N.eqb_spec padding 0) as [?|_]; [lia|].
  rewrite <- app_assoc, <- replicate_S_end, Hk.
  rewrite length_app, length_replicate.
  f_equal. apply take_app_length'. lia.
Qed.

Section RoundTrip.

Context (cipher : Type).
Context (sha256_hexdigest : bytes -> unicode).
Context (AES_new : unicode -> unicode -> outcome error cipher).
Context (cipher_encrypt cipher_decrypt : cipher -> bytes -> outcome error bytes).
Context (encodebytes : bytes -> bytes).
Context (decodebytes : bytes -> outcome error bytes).
Context (json_loads : unicode -> outcome error json).

(** What the libraries guarantee.  A SHA-256 digest in hexadecimal has 64
    characters.  [AES.new] accepts a key of 32 and an initial vector of 16
    characters, given as text.  A cipher object built from them encrypts
    any whole number of 16-byte blocks, and a fresh cipher object built
    from the same key and vector decrypts the result to the input.  Base64
    text is ASCII, and decoding it, with or without its line breaks, gives
    the bytes back. *)
Hypothesis sha256_hexdigest_length :
  forall b, length (sha256_hexdigest b) = 64%nat.
Hypothesis AES_new_accepts :
  forall key iv,
    length key = 32%nat -> length iv = 16%nat -> exists c, AES_new key iv = Returns c.
Hypothesis cipher_inverse :
  forall key iv c p,
    AES_new key iv = Returns c -> len p mod 16 = 0 ->
    exists ct, cipher_encrypt c p = Returns ct /\ cipher_decrypt c ct = Returns p.
Hypothesis encodebytes_ascii :
  forall b, Forall (fun c => c < 128) (encodebytes b).
Hypothesis decodebytes_encodebytes :
  forall b, decodebytes (filter (fun c => c <> 10) (encodebytes b)) = Returns b.


End RoundTrip.

(** *** The round trip on the stand-in libraries *)








(** The same round trip, run: the message is padded to one block, written
    out, read back and stripped; a message that is JSON comes back
    decoded. *)
Example decrypt_encrypt_runs :
  (ct ← encrypt StandIn.cipher StandIn.sha256_hexdigest StandIn.AES_new StandIn.cipher_copy
          StandIn.encodebytes StandIn.example_key StandIn.example_message;
   decrypt StandIn.cipher StandIn.sha256_hexdigest StandIn.AES_new StandIn.cipher_copy
     StandIn.decodebytes StandIn.json_loads StandIn.example_key ct)
  = Returns (Plain StandIn.example_message)
  /\ (ct ← encrypt StandIn.cipher StandIn.sha256_hexdigest StandIn.AES_new
            StandIn.cipher_copy StandIn.encodebytes StandIn.example_key
            StandIn.example_json_message;
      decrypt StandIn.cipher StandIn.sha256_hexdigest StandIn.AES_new StandIn.cipher_copy
        StandIn.decodebytes StandIn.json_loads StandIn.example_key ct)
     = Returns (Json (JArray [JInt 1])).
Proof. split; vm_compute; reflexivity. Qed.

End CryptoFacts.

(** ** Further properties of the dispatch engine *)


Section MoreAsyncProperties.

Context (urlparse : string -> ParseResult).
Context (parse_qs : string -> gmap string (list string)).
Context (self : PubNub) (name : string) (options : RequestOptions).
Context (callback : Callable).

Abbreviation the_client := (client_of urlparse parse_qs self options callback).
Abbreviation the_round_trip :=
  (client_request_outcome (client_of urlparse parse_qs self options callback)).
Abbreviation started flag :=
  (snd (request_async urlparse parse_qs self name options callback flag)).
Abbreviation sent :=
  (session self
     (request_kwargs (scheme_and_host (config self)) (headers self) options
        (connect_timeout (config self)) (non_subscribe_request_timeout (config self)))).

(** The error slot of the callback and [request_sync] agree.  On a call
    that received a response whose body [res.json()] decodes, what the
    callback gets first holds no error exactly when the status is 200, the
    case in which [request_sync] returns that response; for any other
    status it holds the very exception [request_sync] raises for the same
    request.  It is what the callback gets first in every state the call
    can reach, and a call that is not cancelled does deliver it. *)
Theorem async_error_matches_sync (res : Response) (body : json) :
  the_round_trip = Returns res ->
  json_body res = Returns body ->
  exists args,
    delivered_first urlparse parse_qs self options callback name args
    /\ match cb_error args with
       | None => status_code res = 200 /\ request_sync self options = Returns res
       | Some pe =>
           status_code res <> 200 /\ request_sync self options = Raises (Exc_PubNub pe)
       end.
Proof.
  intros Hres Hj.
  destruct (response_delivery urlparse parse_qs self name options callback res body Hres Hj)
    as (args & (_ & _ & _ & Herr) & Hfirst).
  exists args. split; [exact Hfirst|].
  rewrite Herr. unfold request_sync.
  change (pn_request _ _ _ _ _ _) with the_round_trip. rewrite Hres.
  unfold Requests.codes_ok.
  destruct (status_code res =? 200) eqn:H200; simpl.
  - apply Z.eqb_eq in H200. auto.
  - apply Z.eqb_neq in H200. split; [exact H200|].
    destruct (text res); reflexivity.
Qed.

(** On a call that received a response whose body [res.json()] decodes,
    what the callback gets first holds the decoded body and a response
    information with the status code of the response and its request
    object.  It is what the callback gets first in every state the call can
    reach, and a call that is not cancelled does deliver it. *)
Theorem async_body_is_response_json (res : Response) (body : json) :
  the_round_trip = Returns res ->
  json_body res = Returns body ->
  exists args ri,
    delivered_first urlparse parse_qs self options callback name args
    /\ cb_body args = Some body
    /\ cb_response_info args = Some ri
    /\ ri_status_code ri = status_code res
    /\ client_request ri = request res.
Proof.
  intros Hres Hj.
  destruct (response_delivery urlparse parse_qs self name options callback res body Hres Hj)
    as (args & (Hbody & _ & (ri & Hri & Hst & _ & _ & _ & _ & Hreq) & _) & Hfirst).
  exists args, ri. auto.
Qed.

(** From the session's exception to the callback.  When the session raises,
    then after [join], whatever the schedule and whatever the callback
    does, the callback has been invoked once, with no body and no response
    information, and with an error that holds the text of the session's
    exception and no status code.  The category is the unexpected
    disconnect for every connection error, a timeout while connecting among
    them; the timeout for a timeout that is not a connection error; and the
    bad request for everything else. *)
Theorem transport_exception_category (flag : bool) (sched : list action)
    (te : transport_exception) :
  sent = Raises te ->
  exists category pe,
    delivered (objects (join the_client (exec the_client sched (started flag))))
    = [mkCallbackArgs category None None (Some pe)]
    /\ _errormsg pe = str te
    /\ _status_code pe = None
    /\ (isinstance te Requests.ConnectionError = true ->
        category = PNUnexpectedDisconnectCategory)
    /\ (isinstance te Requests.ConnectionError = false ->
        isinstance te Requests.Timeout = true -> category = PNTimeoutCategory)
    /\ (isinstance te Requests.ConnectionError = false ->
        isinstance te Requests.Timeout = false -> category = PNBadRequestCategory).
Proof.
  intros Hsent.
  destruct (join_terminated urlparse parse_qs self options callback _
              (reachable_call_state urlparse parse_qs self name options callback flag sched))
    as (w0 & (Hd0 & _) & _ & Hd & _).
  assert (Hkind : exists kind,
             the_round_trip = Raises (Exc_PubNub (mkPubNubException kind (str te) None))
             /\ (isinstance te Requests.ConnectionError = true ->
                 kind = PNERR_CONNECTION_ERROR)
             /\ (isinstance te Requests.ConnectionError = false ->
                 isinstance te Requests.Timeout = true -> kind = PNERR_CLIENT_TIMEOUT)
             /\ (isinstance te Requests.ConnectionError = false ->
                 isinstance te Requests.Timeout = false ->
                 kind <> PNERR_CONNECTION_ERROR /\ kind <> PNERR_CLIENT_TIMEOUT)).
  { unfold client_request_outcome, pn_request; simpl. rewrite Hsent.
    destruct te as [c s|cls s].
    - destruct c; simpl; eexists; (split; [reflexivity|]);
        repeat split; intros; try reflexivity; discriminate.
    - simpl. eexists. split; [reflexivity|].
      repeat split; intros; try reflexivity; discriminate. }
  destruct Hkind as (kind & Hrt & Hconn & Htime & Hother).
  rewrite Hrt, finish_run_PubNub, delivery_outcome, Hd0 in Hd.
  eexists. eexists. split.
  { rewrite Hd. destruct (callback [] _) as [[]|e]; cbn; rewrite Hd0; reflexivity. }
  cbn [_errormsg _status_code _pn_error].
  split; [reflexivity|]. split; [reflexivity|].
  repeat split.
  - intros H. rewrite (Hconn H). reflexivity.
  - intros H1 H2. rewrite (Htime H1 H2). reflexivity.
  - intros H1 H2. destruct (Hother H1 H2) as [Hk1 Hk2].
    destruct (decide _); [contradiction|]. destruct (decide _); [contradiction|]. reflexivity.
Qed.

(** How often the callback is invoked.  In every state a call can reach,
    under every schedule and whatever the callback does, it has been
    invoked at most twice.  A second invocation is the last one, and there
    is one only on a call that received a response and whose callback
    raised a plain [PubNubException] from its first invocation: the second
    invocation hands it that exception, as [error_callback] does.  When the
    executed flag is true the unit is over, without an exception, and the
    callback has returned from its last invocation. *)
Theorem deliveries_of_a_call (flag : bool) (sched : list action) :
  (length (delivered (objects (exec the_client sched (started flag)))) <= 2)%nat
  /\ (forall first second later,
        delivered (objects (exec the_client sched (started flag))) = first :: second :: later ->
        later = []
        /\ (exists res, the_round_trip = Returns res)
        /\ exists pe, callback [] first = Raises (Exc_PubNub pe) /\ second = error_args pe)
  /\ (is_executed (call (objects (exec the_client sched (started flag)))) = true ->
      unit_at (exec the_client sched (started flag)) = Terminated (Returns tt)
      /\ exists seen last,
           delivered (objects (exec the_client sched (started flag))) = seen ++ [last]
           /\ callback seen last = Returns tt).
Proof.
  pose proof (reachable_call_state urlparse parse_qs self name options callback flag sched)
    as Hs.
  destruct (call_state_end urlparse parse_qs self options callback _ Hs)
    as (o & ds & x & Hend & (more & Hmore) & Hmono & Hover).
  split; [|split].
  - apply (f_equal length) in Hmore. rewrite length_app in Hmore.
    destruct Hend; cbn [length] in Hmore; lia.
  - intros first second later Hd. rewrite Hd in Hmore.
    destruct Hend as [res Hrt|res e Hrt Hj|a Hcb|a e Hcb Hwhy|res a pe Hrt Hcb Hcb2
                     |res a pe e Hrt Hcb Hcb2];
      try discriminate Hmore;
      injection Hmore as <- <- Hnil; symmetry in Hnil; apply app_eq_nil in Hnil as [-> _];
      eauto 6.
  - intros Hx.
    destruct (executed_terminated urlparse parse_qs self options callback _ Hs Hx) as [o' Ho].
    destruct (Hover o' Ho) as (-> & Hd & He).
    rewrite Hx in He. rewrite Ho, Hd.
    destruct Hend as [res Hrt|res e Hrt Hj|a Hcb|a e Hcb Hwhy|res a pe Hrt Hcb Hcb2
                     |res a pe e Hrt Hcb Hcb2];
      try discriminate He; split; try reflexivity.
    + exists [], a. auto.
    + exists [a], (error_args pe). auto.
Qed.

Lemma unit_step_keeps_cancellation (s : system) :
  event_flag (objects (unit_step the_client s)) = event_flag (objects s)
  /\ is_canceled (call (objects (unit_step the_client s))) = is_canceled (call (objects s))
  /\ cancellation_event (call (objects (unit_step the_client s)))
     = cancellation_event (call (objects s)).
Proof.
  unfold unit_step. destruct (unit_at s) as [|p|o]; cbn [objects]; auto.
  pose proof (step_prog_keeps p (objects s)) as (H1 & H2 & H3 & _).
  destruct (step_prog p (objects s)) as [p' w']. auto.
Qed.

(** The cancellation state is the caller's alone.  After any schedule the
    event is set exactly when it was handed over set or the caller has
    called [cancel()], and [is_canceled] is true exactly when the caller
    has called [cancel()]: the background unit never sets or clears
    either. *)
Theorem cancellation_state_is_the_callers (flag : bool) (sched : list action) :
  event_flag (objects (exec the_client sched (started flag))) = flag || cancels sched
  /\ is_canceled (call (objects (exec the_client sched (started flag)))) = cancels sched.
Proof.
  assert (Hgen : forall sched s,
             cancellation_event (call (objects s)) = Some CancellationEvent ->
             event_flag (objects (exec the_client sched s))
             = event_flag (objects s) || cancels sched
             /\ is_canceled (call (objects (exec the_client sched s)))
                = is_canceled (call (objects s)) || cancels sched).
  { clear sched. intros sched. induction sched as [|a sched IH]; intros s Hc.
    - simpl. rewrite !orb_false_r. auto.
    - rewrite exec_cons. destruct a; cbn [perform cancels existsb].
      + destruct (IH (caller_cancel s)) as [H1 H2].
        { cbn [caller_cancel objects]. rewrite cancel_cancellation_event. exact Hc. }
        fold (cancels sched). rewrite H1, H2. cbn [caller_cancel objects].
        unfold cancel. rewrite Hc. cbn.
        rewrite !orb_true_r. auto.
      + destruct (unit_step_keeps_cancellation s) as (Hf & Hk & He).
        destruct (IH (unit_step the_client s)) as [H1 H2]; [congruence|].
        fold (cancels sched). rewrite H1, H2, Hf, Hk. auto. }
  destruct (Hgen sched (started flag) eq_refl) as [H1 H2].
  split; [exact H1 | exact H2].
Qed.


(** How the background unit can end with an exception.  [pn_request]
    raises nothing but a plain [PubNubException], which [error_callback]
    delivers, so an exception that ends the unit of a call was raised in
    one of two places.  Either [res.json()] raised it on a response that
    was not dropped, while the arguments of the callback were evaluated:
    then nothing has been delivered.  Or the callback raised it, from what
    is then its last invocation.  In both cases the executed flag is
    false. *)
Theorem unit_ends_with_exception (flag : bool) (sched : list action) (e : exception) :
  unit_at (exec the_client sched (started flag)) = Terminated (Raises e) ->
  is_executed (call (objects (exec the_client sched (started flag)))) = false
  /\ ((delivered (objects (exec the_client sched (started flag))) = []
       /\ exists res, the_round_trip = Returns res /\ res_json res = Raises e)
      \/ (exists seen last,
            delivered (objects (exec the_client sched (started flag))) = seen ++ [last]
            /\ callback seen last = Raises e)).
Proof.
  intros Hu.
  pose proof (reachable_call_state urlparse parse_qs self name options callback flag sched)
    as Hs.
  destruct (call_state_end urlparse parse_qs self options callback _ Hs)
    as (o & ds & x & Hend & _ & _ & Hover).
  destruct (Hover _ Hu) as (Ho & Hd & He).
  rewrite Hd, He. subst o.
  inversion Hend as [res Hrt|res e' Hrt Hj|a Hcb|a e' Hcb Hwhy|res a pe Hrt Hcb Hcb2
                    |res a pe e' Hrt Hcb Hcb2]; subst; split; try reflexivity.
  - left. eauto.
  - right. exists [], a. auto.
  - right. exists [a], (error_args pe). auto.
Qed.

End MoreAsyncProperties.

(** On a call answered with status 200 and cancelled after the response
    came back but before [run] looked at the event. *)
Lemma cancelled_response_never_delivered_witness :
  unit_at (exec (example_client (answering sent_response) returning) [UnitStep; DoCancel]
             (example_start (answering sent_response) returning false))
  = Running (run_from (example_client (answering sent_response) returning)
               (Returns sent_response))
  /\ event_flag (objects (exec (example_client (answering sent_response) returning)
                            [UnitStep; DoCancel]
                            (example_start (answering sent_response) returning false))) = true
  /\ delivered (objects (join (example_client (answering sent_response) returning)
                           (exec (example_client (answering sent_response) returning)
                              [UnitStep]
                              (exec (example_client (answering sent_response) returning)
                                 [UnitStep; DoCancel]
                                 (example_start (answering sent_response) returning false)))))
     = []
  /\ is_executed (call (objects (join (example_client (answering sent_response) returning)
                                   (exec (example_client (answering sent_response) returning)
                                      [UnitStep]
                                      (exec (example_client (answering sent_response) returning)
                                         [UnitStep; DoCancel]
                                         (example_start (answering sent_response) returning
                                            false))))))
     = false.
Proof.
  split; [reflexivity|]. split; [reflexivity|].
  apply (cancelled_response_never_delivered example_urlparse example_parse_qs
           (answering sent_response) publish_options returning
           (exec (example_client (answering sent_response) returning) [UnitStep; DoCancel]
              (example_start (answering sent_response) returning false))
           sent_response [UnitStep]).
  - apply (reachable_call_state example_urlparse example_parse_qs (answering sent_response)
             "Publish" publish_options returning false [UnitStep; DoCancel]).
  - right. reflexivity.
  - reflexivity.
  - reflexivity.
Defined.

(** On the scenario of the spec, status 200 with a JSON body: the callback
    gets no error, and [request_sync] returns the response. *)
Lemma async_error_matches_sync_witness :
  client_request_outcome (example_client (answering sent_response) returning)
  = Returns sent_response
  /\ json_body sent_response = Returns (JArray [JInt 1; JString "Sent"])
  /\ exists args,
       delivered (objects (join (example_client (answering sent_response) returning)
                             (exec (example_client (answering sent_response) returning) []
                                (example_start (answering sent_response) returning false))))
       = [args]
       /\ cb_error args = None
       /\ request_sync (answering sent_response) publish_options = Returns sent_response.
Proof.
  split; [reflexivity|]. split; [reflexivity|].
  destruct (async_error_matches_sync example_urlparse example_parse_qs
              (answering sent_response) "Publish" publish_options returning
              sent_response (JArray [JInt 1; JString "Sent"]) eq_refl eq_refl)
    as (args & (_ & Hlive) & Herr).
  exists args.
  destruct (Hlive [] eq_refl) as (later & Hd & Honce).
  destruct (Honce eq_refl) as [-> _].
  split; [exact Hd|].
  destruct (cb_error args) as [pe|]; [exfalso; apply (proj1 Herr); reflexivity|].
  split; [reflexivity | exact (proj2 Herr)].
Defined.

(** On a call answered with status 403. *)
Lemma async_body_is_response_json_witness :
  client_request_outcome (example_client (answering forbidden_response) returning)
  = Returns forbidden_response
  /\ json_body forbidden_response = Returns (JObject [])
  /\ exists args,
       delivered (objects (join (example_client (answering forbidden_response) returning)
                             (exec (example_client (answering forbidden_response) returning)
                                []
                                (example_start (answering forbidden_response) returning
                                   false))))
       = [args]
       /\ cb_body args = Some (JObject []).
Proof.
  split; [reflexivity|]. split; [reflexivity|].
  destruct (async_body_is_response_json example_urlparse example_parse_qs
              (answering forbidden_response) "Publish" publish_options returning
              forbidden_response (JObject []) eq_refl eq_refl)
    as (args & ri & (_ & Hlive) & Hbody & _).
  exists args.
  destruct (Hlive [] eq_refl) as (later & Hd & Honce).
  destruct (Honce eq_refl) as [-> _].
  split; [exact Hd | exact Hbody].
Defined.

(** On a timeout while connecting, with a callback that raises: the
    callback gets the unexpected disconnect, not the timeout. *)
Lemma transport_exception_category_witness :
  session (failing connect_timed_out)
    (request_kwargs (scheme_and_host (config (failing connect_timed_out)))
       (headers (failing connect_timed_out)) publish_options
       (connect_timeout (config (failing connect_timed_out)))
       (non_subscribe_request_timeout (config (failing connect_timed_out))))
  = Raises connect_timed_out
  /\ exists pe,
       delivered (objects (join (example_client (failing connect_timed_out)
                                   (raising json_decode_error))
                             (exec (example_client (failing connect_timed_out)
                                      (raising json_decode_error)) [DoCancel]
                                (example_start (failing connect_timed_out)
                                   (raising json_decode_error) false))))
       = [mkCallbackArgs PNUnexpectedDisconnectCategory None None (Some pe)].
Proof.
  split; [reflexivity|].
  destruct (transport_exception_category example_urlparse example_parse_qs
              (failing connect_timed_out) "Publish" publish_options
              (raising json_decode_error) false [DoCancel]
              connect_timed_out eq_refl)
    as (category & pe & Hd & _ & _ & Hconn & _).
  exists pe. rewrite <- (Hconn eq_refl). exact Hd.
Defined.

(** On a call answered by a gateway with status 502 and an HTML page. *)
Lemma unit_ends_with_exception_witness :
  unit_at (exec (example_client (answering bad_gateway_response) returning)
             [UnitStep; UnitStep]
             (example_start (answering bad_gateway_response) returning false))
  = Terminated (Raises json_decode_error)
  /\ is_executed
       (call (objects (exec (example_client (answering bad_gateway_response) returning)
                         [UnitStep; UnitStep]
                         (example_start (answering bad_gateway_response) returning false))))
     = false.
Proof.
  split; [reflexivity|].
  exact (proj1 (unit_ends_with_exception example_urlparse example_parse_qs
                  (answering bad_gateway_response) "Publish" publish_options returning
                  false [UnitStep; UnitStep] json_decode_error eq_refl)).
Defined.

(** ** Further properties of [crypto.py] *)

Module CryptoMore.

Import Crypto CryptoFacts.
Local Open Scope N_scope.

(** [pad] for block sizes from 1 to 127.  It appends between 1 and
    [block_size] bytes, each holding their number; the result fills whole
    blocks; and a message that already fills whole blocks gets a whole block
    more. *)
Theorem pad_fills_blocks (msg : bytes) (block_size : N) :
  1 <= block_size <= 127 ->
  let padding := block_size - len msg mod block_size in
  pad msg (Z.of_N block_size) = Returns (msg ++ replicate (N.to_nat padding) padding)
  /\ 1 <= padding <= block_size
  /\ len (msg ++ replicate (N.to_nat padding) padding) mod block_size = 0
  /\ (len msg mod block_size = 0 -> padding = block_size).
Proof.
  intros Hbs padding.
  destruct (pad_blocks msg block_size Hbs) as (Hpad & Hp & Hlen).
  repeat split; try assumption; try apply Hp.
  intros H0. unfold padding. lia.
Qed.

(** Outside that range [pad] can raise: a block size of zero makes the
    remainder raise, and a negative one gives a negative number to [chr]. *)
Lemma pad_block_size_zero (msg : bytes) : pad msg 0 = Raises ZeroDivisionError.
Proof. reflexivity. Qed.

Lemma pad_block_size_negative (msg : bytes) (block_size : Z) :
  (-2147483648 <= block_size < 0)%Z -> pad msg block_size = Raises ValueError.
Proof.
  intros Hbs. unfold pad, py_mod.
  destruct (Z.eqb_spec block_size 0) as [?|_]; [lia|].
  cbn [mbind outcome_bind]. unfold chr.
  pose proof (Z.mod_neg_bound (Z.of_N (len msg)) block_size ltac:(lia)) as Hm.
  destruct (Z.ltb_spec (block_size - Z.of_N (len msg) mod block_size) (-2147483648)); [lia|].
  destruct (Z.ltb_spec 2147483647 (block_size - Z.of_N (len msg) mod block_size)); [lia|].
  destruct (Z.leb_spec 0 (block_size - Z.of_N (len msg) mod block_size)); [lia|].
  reflexivity.
Qed.

(** On the empty message and the block size of [encrypt]: one whole block
    of bytes 16. *)
Lemma pad_fills_blocks_witness :
  1 <= 16 <= 127 /\ pad [] 16 = Returns (replicate 16 16).
Proof.
  split; [lia|].
  exact (proj1 (pad_fills_blocks [] 16 ltac:(lia))).
Defined.

(** [depad] on any text.  The empty text raises [IndexError].  Otherwise
    the result is the text without its end, and what is dropped is as long
    as the code of the last character says, at most the whole text; a last
    character of code 0 drops the whole text, since minus zero is zero. *)
Theorem depad_drops_by_last_character (msg : unicode) :
  match last msg with
  | None => msg = [] /\ depad msg = Raises IndexError
  | Some c =>
      exists kept dropped,
        depad msg = Returns kept
        /\ msg = kept ++ dropped
        /\ len dropped = (if c =? 0 then len msg else N.min c (len msg))
  end.
Proof.
  unfold depad. destruct (last msg) as [c|] eqn:Hlast.
  - unfold slice_0_neg, ord. destruct (N.eqb_spec c 0) as [H0|H0].
    + exists [], msg. auto.
    + exists (take (length msg - N.to_nat c) msg), (drop (length msg - N.to_nat c) msg).
      split; [reflexivity|]. split; [symmetry; apply take_drop|].
      unfold len. rewrite length_drop. lia.
  - apply last_None in Hlast. auto.
Qed.

(** [depad] looks at the last character alone: whatever stands before it in
    the stretch it removes is removed unread. *)
Theorem depad_trusts_last_character (msg junk : unicode) :
  depad (msg ++ junk ++ [len junk + 1]) = Returns msg.
Proof.
  unfold depad. rewrite !app_assoc, last_snoc.
  unfold slice_0_neg, ord, len.
  destruct (N.eqb_spec (N.of_nat (length junk) + 1) 0) as [?|_]; [lia|].
  f_equal. rewrite <- !app_assoc. apply take_app_length'.
  rewrite !length_app. simpl. lia.
Qed.

(** [pad] then [depad], as [encrypt] and [decrypt] use them: a text is
    encoded, padded to a block size from 1 to 127, decoded and stripped, and
    comes back as it was. *)
Theorem depad_pad_round_trip (s : unicode) (block_size : N) :
  encodable s -> 1 <= block_size <= 127 ->
  exists b padded,
    encode_utf8 s = Returns b
    /\ pad b (Z.of_N block_size) = Returns padded
    /\ (t ← decode_utf8 padded; depad t) = Returns s.
Proof.
  intros Hs Hbs.
  destruct (encodable_encodes s Hs) as [b Hb].
  destruct (pad_blocks b block_size Hbs) as (Hpad & Hp & _).
  eexists. eexists. split; [exact Hb|]. split; [exact Hpad|].
  rewrite (decode_encode_app s b _ Hb).
  rewrite decode_ascii by (apply Forall_replicate; lia).
  cbn [mbind outcome_bind mret outcome_ret].
  apply depad_padded. lia.
Qed.

(** On the text "5 €" and blocks of 16 bytes. *)
Lemma depad_pad_round_trip_witness :
  encodable StandIn.example_message
  /\ 1 <= 16 <= 127
  /\ exists b padded,
       encode_utf8 StandIn.example_message = Returns b
       /\ pad b 16 = Returns padded
       /\ (t ← decode_utf8 padded; depad t) = Returns StandIn.example_message.
Proof.
  assert (Hs : encodable StandIn.example_message) by (repeat constructor).
  split; [exact Hs|]. split; [lia|].
  exact (depad_pad_round_trip StandIn.example_message 16 Hs ltac:(lia)).
Defined.

(** The only error of [encode_utf8] is [UnicodeEncodeError], and it is the
    answer to exactly the texts that are not encodable. *)
Lemma encode_utf8_returns_encodable (s : unicode) (b : bytes) :
  encode_utf8 s = Returns b -> encodable s.
Proof.
  revert b. induction s as [|c s IH]; intros b; [constructor|].
  cbn [encode_utf8].
  destruct (encode_char c) as [bc|] eqn:Hc; [|discriminate].
  destruct (encode_utf8 s) as [bs|] eqn:Hs; [|discriminate].
  intros _. constructor; [|eapply IH; reflexivity].
  unfold encode_char in Hc. unfold is_scalar, is_surrogate in *.
  revert Hc. decide_comparisons; simpl; intros; try reflexivity; discriminate.
Qed.

Lemma encode_utf8_error (s : unicode) (e : error) :
  encode_utf8 s = Raises e -> e = UnicodeEncodeError.
Proof.
  induction s as [|c s IH]; [discriminate|].
  cbn [encode_utf8].
  destruct (encode_char c); [|intros [= <-]; reflexivity].
  destruct (encode_utf8 s); [discriminate|].
  intros [= <-]. apply IH. reflexivity.
Qed.

Lemma unencodable_raises (s : unicode) :
  ~ encodable s -> encode_utf8 s = Raises UnicodeEncodeError.
Proof.
  intros Hs. destruct (encode_utf8 s) as [b|e] eqn:He.
  - exfalso. eauto using encode_utf8_returns_encodable.
  - f_equal. eauto using encode_utf8_error.
Qed.

Section AnyLibrary.

Context (cipher : Type).
Context (sha256_hexdigest : bytes -> unicode).
Context (AES_new : unicode -> unicode -> outcome error cipher).
Context (cipher_encrypt cipher_decrypt : cipher -> bytes -> outcome error bytes).
Context (encodebytes : bytes -> bytes).
Context (decodebytes : bytes -> outcome error bytes).
Context (json_loads : unicode -> outcome error json).

(** Whatever the libraries do, the text [encrypt] returns holds no line
    break. *)
Theorem encrypt_has_no_newline (key msg ciphertext : unicode) :
  encrypt cipher sha256_hexdigest AES_new cipher_encrypt encodebytes key msg
  = Returns ciphertext ->
  10 ∉ ciphertext.
Proof.
  unfold encrypt, get_secret.
  destruct (encode_utf8 key) as [kb|]; [|discriminate].
  cbn [mbind outcome_bind mret outcome_ret].
  destruct (AES_new _ _) as [ci|]; [|discriminate].
  cbn [mbind outcome_bind].
  destruct (encode_utf8 msg) as [mb|]; [|discriminate].
  cbn [mbind outcome_bind].
  destruct (pad mb 16) as [padded|]; [|discriminate].
  cbn [mbind outcome_bind].
  destruct (cipher_encrypt _ _) as [c|]; [|discriminate].
  cbn [mbind outcome_bind].
  destruct (decode_utf8 _) as [t|]; [|discriminate].
  cbn [mbind outcome_bind mret outcome_ret].
  intros [= <-]. unfold remove_newlines.
  intros Hin. apply list_elem_of_filter in Hin. destruct Hin as [Hne _].
  apply Hne. reflexivity.
Qed.

(** Text that UTF-8 cannot carry is refused, and where the exception comes
    from follows the order of the code.  With such a key, [encrypt] and
    [decrypt] raise [UnicodeEncodeError] whatever the libraries do, since
    [get_secret] comes first.  With a key that encodes and such a message,
    or such a cipher text for [decrypt], neither returns: the cipher object
    is built before the text is encoded, so each raises what [AES.new]
    raises when it raises, and [UnicodeEncodeError] when it returns. *)
Theorem unencodable_text_is_refused (key text : unicode) :
  ~ encodable key \/ ~ encodable text ->
  (exists e,
      encrypt cipher sha256_hexdigest AES_new cipher_encrypt encodebytes key text = Raises e
      /\ decrypt cipher sha256_hexdigest AES_new cipher_decrypt decodebytes json_loads
           key text = Raises e)
  /\ (~ encodable key ->
      encrypt cipher sha256_hexdigest AES_new cipher_encrypt encodebytes key text
      = Raises UnicodeEncodeError
      /\ decrypt cipher sha256_hexdigest AES_new cipher_decrypt decodebytes json_loads
           key text = Raises UnicodeEncodeError)
  /\ (forall kb,
        encode_utf8 key = Returns kb ->
        match AES_new (take 32 (sha256_hexdigest kb)) Initial16bytes with
        | Returns _ =>
            encrypt cipher sha256_hexdigest AES_new cipher_encrypt encodebytes key text
            = Raises UnicodeEncodeError
            /\ decrypt cipher sha256_hexdigest AES_new cipher_decrypt decodebytes json_loads
                 key text = Raises UnicodeEncodeError
        | Raises e =>
            encrypt cipher sha256_hexdigest AES_new cipher_encrypt encodebytes key text
            = Raises e
            /\ decrypt cipher sha256_hexdigest AES_new cipher_decrypt decodebytes json_loads
                 key text = Raises e
        end).
Proof.
  intros Hbad.
  destruct (encode_utf8 key) as [kb|e] eqn:Hk.
  - assert (Htext : ~ encodable text).
    { destruct Hbad as [Hkey|Htext]; [|exact Htext].
      exfalso. eauto using encode_utf8_returns_encodable. }
    assert (Hgo : match AES_new (take 32 (sha256_hexdigest kb)) Initial16bytes with
                  | Returns _ =>
                      encrypt cipher sha256_hexdigest AES_new cipher_encrypt encodebytes
                        key text = Raises UnicodeEncodeError
                      /\ decrypt cipher sha256_hexdigest AES_new cipher_decrypt decodebytes
                           json_loads key text = Raises UnicodeEncodeError
                  | Raises e =>
                      encrypt cipher sha256_hexdigest AES_new cipher_encrypt encodebytes
                        key text = Raises e
                      /\ decrypt cipher sha256_hexdigest AES_new cipher_decrypt decodebytes
                           json_loads key text = Raises e
                  end).
    { unfold encrypt, decrypt, get_secret. rewrite Hk.
      cbn [mbind outcome_bind mret outcome_ret].
      destruct (AES_new _ _) as [ci|e]; cbn [mbind outcome_bind];
        [rewrite (unencodable_raises text Htext)|]; split; reflexivity. }
    split; [|split].
    + destruct (AES_new _ _) as [ci|e]; eauto.
    + intros Hkey. exfalso. eauto using encode_utf8_returns_encodable.
    + intros kb' [= <-]. exact Hgo.
  - assert (Hboth : encrypt cipher sha256_hexdigest AES_new cipher_encrypt encodebytes
                      key text = Raises UnicodeEncodeError
                    /\ decrypt cipher sha256_hexdigest AES_new cipher_decrypt decodebytes
                         json_loads key text = Raises UnicodeEncodeError).
    { unfold encrypt, decrypt, get_secret.
      rewrite Hk, (encode_utf8_error key e Hk). split; reflexivity. }
    split; [eauto|]. split; [auto|]. intros kb' [=].
Qed.

(** Of the digest of the key only the first 32 characters count: two keys
    whose digests start with the same 32 characters encrypt every message
    to the same text and decrypt every text to the same value. *)
Theorem keys_with_equal_digest_prefix (key1 key2 : unicode) (b1 b2 : bytes) :
  encode_utf8 key1 = Returns b1 ->
  encode_utf8 key2 = Returns b2 ->
  take 32 (sha256_hexdigest b1) = take 32 (sha256_hexdigest b2) ->
  (forall msg,
      encrypt cipher sha256_hexdigest AES_new cipher_encrypt encodebytes key1 msg
      = encrypt cipher sha256_hexdigest AES_new cipher_encrypt encodebytes key2 msg)
  /\ (forall ciphertext,
        decrypt cipher sha256_hexdigest AES_new cipher_decrypt decodebytes json_loads
          key1 ciphertext
        = decrypt cipher sha256_hexdigest AES_new cipher_decrypt decodebytes json_loads
            key2 ciphertext).
Proof.
  intros H1 H2 Hprefix. unfold encrypt, decrypt, get_secret.
  rewrite H1, H2. cbn [mbind outcome_bind mret outcome_ret].
  rewrite Hprefix. split; reflexivity.
Qed.

End AnyLibrary.

(** On the stand-in libraries: the stand-in for [encodebytes] ends its text
    with a line break, and the cipher text has none. *)
Lemma encrypt_has_no_newline_witness :
  exists ciphertext,
    encrypt StandIn.cipher StandIn.sha256_hexdigest StandIn.AES_new StandIn.cipher_copy
      StandIn.encodebytes StandIn.example_key StandIn.example_message = Returns ciphertext
    /\ 10 ∉ ciphertext.
Proof.
  eexists. split; [vm_compute; reflexivity|].
  apply (encrypt_has_no_newline StandIn.cipher StandIn.sha256_hexdigest StandIn.AES_new
           StandIn.cipher_copy StandIn.encodebytes
           StandIn.example_key StandIn.example_message).
  vm_compute. reflexivity.
Defined.

(** On a message that is one lone surrogate, with the stand-in for
    [AES.new], which returns. *)
Lemma unencodable_text_is_refused_witness :
  (~ encodable StandIn.example_key \/ ~ encodable StandIn.lone_surrogate)
  /\ exists e,
       encrypt StandIn.cipher StandIn.sha256_hexdigest StandIn.AES_new StandIn.cipher_copy
         StandIn.encodebytes StandIn.example_key StandIn.lone_surrogate = Raises e
       /\ decrypt StandIn.cipher StandIn.sha256_hexdigest StandIn.AES_new
            StandIn.cipher_copy StandIn.decodebytes StandIn.json_loads
            StandIn.example_key StandIn.lone_surrogate = Raises e.
Proof.
  assert (Hbad : ~ encodable StandIn.example_key \/ ~ encodable StandIn.lone_surrogate).
  { right. intros H. inversion H as [|c s Hc Hs]. discriminate Hc. }
  split; [exact Hbad|].
  exact (proj1 (unencodable_text_is_refused StandIn.cipher StandIn.sha256_hexdigest
                  StandIn.AES_new StandIn.cipher_copy StandIn.cipher_copy
                  StandIn.encodebytes StandIn.decodebytes
                  StandIn.json_loads StandIn.example_key StandIn.lone_surrogate Hbad)).
Defined.

(** On the stand-in digest, which is the same for every key: what the key
    "k" encrypts, the key "l" decrypts. *)
Lemma keys_with_equal_digest_prefix_witness :
  encode_utf8 [107] = Returns [107]
  /\ encode_utf8 [108] = Returns [108]
  /\ take 32 (StandIn.sha256_hexdigest [107]) = take 32 (StandIn.sha256_hexdigest [108])
  /\ encrypt StandIn.cipher StandIn.sha256_hexdigest StandIn.AES_new StandIn.cipher_copy
       StandIn.encodebytes [107] StandIn.example_message
     = encrypt StandIn.cipher StandIn.sha256_hexdigest StandIn.AES_new StandIn.cipher_copy
         StandIn.encodebytes [108] StandIn.example_message.
Proof.
  split; [reflexivity|]. split; [reflexivity|]. split; [reflexivity|].
  exact (proj1 (keys_with_equal_digest_prefix StandIn.cipher StandIn.sha256_hexdigest
                  StandIn.AES_new StandIn.cipher_copy StandIn.cipher_copy
                  StandIn.encodebytes StandIn.decodebytes
                  StandIn.json_loads [107] [108] [107] [108] eq_refl eq_refl eq_refl)
           StandIn.example_message).
Defined.

End CryptoMore.
